(** * httpctx: context-aware ListenAndServe

    A shallow embedding of [httpctx.go].  The package runs a blocking
    serve call on the calling goroutine while a second goroutine waits
    for the context to be cancelled and then shuts the server down.

    The two goroutines of [start] are modelled as two program counters
    over a shared state; an [action] is one choice of the scheduler or of
    the environment (the context being cancelled, time passing, [runFunc]
    or [srv.Shutdown] returning).  The step function is executable, so
    concrete schedules can be evaluated. *)

From Stdlib Require Import ZArith List Bool String Lia.
Import ListNotations.
Open Scope Z_scope.

(** ** Errors, durations, contexts *)

(** Go error values.  [ErrWrap] is an error whose [Unwrap() error]
    method returns [inner], as produced by [fmt.Errorf] with one [%w]
    verb; [ErrJoin] is an error whose [Unwrap() []error] method returns
    [errs], as produced by [errors.Join]; [ErrCustom] is an error of a
    type with an [Is(error) bool] method that answers true on [targets]
    and false elsewhere.  A typed nil pointer stored in the interface,
    whose methods panic when [errors.Is] calls them, is not
    represented. *)
#[warnings="-register-all"]
Inductive error : Type :=
| ErrServerClosed                       (* http.ErrServerClosed *)
| DeadlineExceeded                      (* context.DeadlineExceeded *)
| ErrNew (msg : string)                 (* errors.New(msg) *)
| ErrWrap (msg : string) (inner : error)
| ErrJoin (errs : list error)
| ErrCustom (msg : string) (targets : list error).

(** A value of interface type [error]: [None] is [nil]. *)
Definition goerror : Type := option error.

(** [err == target] on interface values. *)
Fixpoint error_eqb (a b : error) {struct a} : bool :=
  match a, b with
  | ErrServerClosed, ErrServerClosed => true
  | DeadlineExceeded, DeadlineExceeded => true
  | ErrNew m, ErrNew m' => String.eqb m m'
  | ErrWrap m i, ErrWrap m' i' => String.eqb m m' && error_eqb i i'
  | ErrJoin l, ErrJoin l' =>
      (fix all2 (l l' : list error) {struct l} : bool :=
         match l, l' with
         | [], [] => true
         | x :: r, y :: r' => error_eqb x y && all2 r r'
         | _, _ => false
         end) l l'
  | ErrCustom m t, ErrCustom m' t' =>
      String.eqb m m' &&
      (fix all2 (l l' : list error) {struct l} : bool :=
         match l, l' with
         | [], [] => true
         | x :: r, y :: r' => error_eqb x y && all2 r r'
         | _, _ => false
         end) t t'
  | _, _ => false
  end.

(** [err.Is(target)], for an [err] whose type has that method. *)
Definition is_method (err target : error) : bool :=
  match err with
  | ErrCustom _ targets => existsb (error_eqb target) targets
  | _ => false
  end.

(** [errors.Is]: [err] is [target], or its [Is] method says so, or one
    of the errors it unwraps to matches, depth first. *)
Fixpoint errors_Is (err target : error) {struct err} : bool :=
  error_eqb err target || is_method err target ||
  match err with
  | ErrWrap _ inner => errors_Is inner target
  | ErrJoin errs =>
      (fix any (l : list error) {struct l} : bool :=
         match l with
         | [] => false
         | e :: r => errors_Is e target || any r
         end) errs
  | _ => false
  end.

(** [time.Duration]: a signed count of nanoseconds. *)
Definition Duration : Type := Z.
Definition Nanosecond : Duration := 1.
Definition Second : Duration := 1000000000 * Nanosecond.

(** The [context.Context] handed to [srv.Shutdown]: either
    [context.Background()], which never expires, or the result of
    [context.WithTimeout], which carries an absolute deadline. *)
Inductive context : Type :=
| Background
| WithDeadline (deadline : Z).

(** [context.WithTimeout(context.Background(), d)] evaluated when the
    clock reads [now]. *)
Definition WithTimeout (now : Z) (d : Duration) : context :=
  WithDeadline (now + d).

(** ** Observable events of one run of [start] *)

Inductive event : Type :=
| EvCancel                               (* ctx.Done() is closed *)
| EvRunReturn (err : goerror)            (* runFunc() returned err *)
| EvBefore (timeout : Duration)          (* cfg.beforeShutdown(timeout) ran *)
| EvShutdownCall (ctx : context)         (* srv.Shutdown(ctx) was entered *)
| EvShutdownReturn (err : goerror)       (* srv.Shutdown returned err *)
| EvAfter (err : goerror)                (* cfg.afterShutdown(err) ran *)
| EvReturn (err : goerror).              (* start returned err *)

Definition is_cancel (e : event) : bool :=
  match e with EvCancel => true | _ => false end.
Definition is_before (e : event) : bool :=
  match e with EvBefore _ => true | _ => false end.
Definition is_shutdown_call (e : event) : bool :=
  match e with EvShutdownCall _ => true | _ => false end.
Definition is_shutdown_return (e : event) : bool :=
  match e with EvShutdownReturn _ => true | _ => false end.
Definition is_after (e : event) : bool :=
  match e with EvAfter _ => true | _ => false end.
Definition is_return (e : event) : bool :=
  match e with EvReturn _ => true | _ => false end.

(** Events produced by the goroutine that calls [start]. *)
Definition is_main_ev (e : event) : bool :=
  match e with
  | EvRunReturn _ | EvAfter _ | EvReturn _ => true
  | _ => false
  end.

(** Events produced by the goroutine spawned at line 74. *)
Definition is_watcher_ev (e : event) : bool :=
  match e with
  | EvBefore _ | EvShutdownCall _ | EvShutdownReturn _ => true
  | _ => false
  end.

(** Number of events of a kind in a trace. *)
Definition count (p : event -> bool) (tr : list event) : nat :=
  List.length (filter p tr).

(** [a] occurs in the trace strictly before [b]. *)
Definition precedes (a b : event) (tr : list event) : Prop :=
  exists l1 l2 l3, tr = l1 ++ a :: l2 ++ b :: l3.

Section Httpctx.

(** Whatever the hooks act on (a logger, a channel, ...). *)
Context {W : Type}.

(** ** Configuration and options *)

(** A Go func value is either [nil] ([None]) or a closure. *)
Record config : Type := mkConfig {
  beforeShutdown  : option (Duration -> W -> W);
  afterShutdown   : option (goerror -> W -> W);
  shutdownTimeout : Duration
}.

(** [type Option func(o *config)]: an option updates the config in place. *)
Definition Option : Type := config -> config.

Definition WithShutdownTimeout (d : Duration) : Option :=
  fun o => mkConfig (beforeShutdown o) (afterShutdown o) d.

Definition BeforeShutdown (fn : option (Duration -> W -> W)) : Option :=
  fun o => mkConfig fn (afterShutdown o) (shutdownTimeout o).

Definition AfterShutdown (fn : option (goerror -> W -> W)) : Option :=
  fun o => mkConfig (beforeShutdown o) fn (shutdownTimeout o).

Definition defaultConfig : config :=
  mkConfig (Some (fun _ w => w)) (Some (fun _ w => w)) (30 * Second).

(** [for _, opt := range opts { opt(&cfg) }] *)
Definition newConfig (opts : list Option) : config :=
  fold_left (fun cfg opt => opt cfg) opts defaultConfig.

(** ** The two goroutines of [start] *)

(** Where the calling goroutine stands. *)
Inductive main_pc : Type :=
| MRun                    (* line 88: inside runFunc() *)
| MCheck (err : goerror)  (* line 88: runFunc returned err, test pending *)
| MRecv                   (* line 92: blocked on <-errc *)
| MAfter (err : goerror)  (* line 93: about to call cfg.afterShutdown(err) *)
| MRet (err : goerror)    (* line 94: about to return err *)
| MDone (err : goerror)   (* start has returned err *)
| MPanic.                 (* line 93 called a nil func *)

(** Where the goroutine spawned at line 74 stands. *)
Inductive watcher_pc : Type :=
| WWait                   (* line 75: blocked on <-ctx.Done() *)
| WTimeout                (* lines 77-82: choosing the shutdown context *)
| WBefore (c : context)   (* line 84: about to call cfg.beforeShutdown *)
| WCall (c : context)     (* line 85: about to call srv.Shutdown(c) *)
| WShutdown (c : context) (* line 85: inside srv.Shutdown(c) *)
| WSend (err : goerror)   (* line 85: blocked on errc <- err *)
| WExit                   (* sent; deferred cancel ran; goroutine ended *)
| WPanic.                 (* line 84 called a nil func *)

Record state : Type := mkState {
  mpc : main_pc;
  wpc : watcher_pc;
  cancelled : bool;        (* ctx.Done() is closed *)
  now : Z;                 (* the clock, in nanoseconds *)
  world : W;               (* what the hooks act on *)
  trace : list event       (* events so far, oldest first *)
}.

Definition set_mpc (p : main_pc) (s : state) : state :=
  mkState p (wpc s) (cancelled s) (now s) (world s) (trace s).
Definition set_wpc (p : watcher_pc) (s : state) : state :=
  mkState (mpc s) p (cancelled s) (now s) (world s) (trace s).
Definition set_world (w : W) (s : state) : state :=
  mkState (mpc s) (wpc s) (cancelled s) (now s) w (trace s).
Definition emit (e : event) (s : state) : state :=
  mkState (mpc s) (wpc s) (cancelled s) (now s) (world s) (trace s ++ [e]).

(** A panic in either goroutine takes the whole process down. *)
Definition crashed (s : state) : bool :=
  match mpc s, wpc s with
  | MPanic, _ => true
  | _, WPanic => true
  | _, _ => false
  end.

(** Line 88: [err != nil && !errors.Is(err, http.ErrServerClosed)]. *)
Definition run_failed (err : goerror) : bool :=
  match err with
  | Some e => negb (errors_Is e ErrServerClosed)
  | None => false
  end.

(** Lines 77-82: the context passed to [srv.Shutdown]. *)
Definition shutdown_ctx (cfg : config) (now : Z) : context :=
  if 0 <? shutdownTimeout cfg
  then WithTimeout now (shutdownTimeout cfg)
  else Background.

Inductive action : Type :=
| ACancel                          (* the caller cancels ctx *)
| ATick (dt : N)                   (* dt nanoseconds pass *)
| ARunReturn (err : goerror)       (* runFunc returns err *)
| AShutdownReturn (err : goerror)  (* srv.Shutdown returns err *)
| AMain                            (* the calling goroutine runs *)
| AWatcher                         (* the spawned goroutine runs *)
| AHandoff.                        (* send and receive on errc meet *)

Definition step_main (cfg : config) (s : state) : option state :=
  match mpc s with
  | MCheck err =>
      if run_failed err
      then Some (emit (EvReturn err) (set_mpc (MDone err) s))
      else Some (set_mpc MRecv s)
  | MAfter err =>
      match afterShutdown cfg with
      | Some fn =>
          Some (emit (EvAfter err)
                  (set_world (fn err (world s)) (set_mpc (MRet err) s)))
      | None => Some (set_mpc MPanic s)
      end
  | MRet err => Some (emit (EvReturn err) (set_mpc (MDone err) s))
  | MRun | MRecv | MDone _ | MPanic => None
  end.

Definition step_watcher (cfg : config) (s : state) : option state :=
  match wpc s with
  | WWait => if cancelled s then Some (set_wpc WTimeout s) else None
  | WTimeout => Some (set_wpc (WBefore (shutdown_ctx cfg (now s))) s)
  | WBefore c =>
      match beforeShutdown cfg with
      | Some fn =>
          Some (emit (EvBefore (shutdownTimeout cfg))
                  (set_world (fn (shutdownTimeout cfg) (world s))
                     (set_wpc (WCall c) s)))
      | None => Some (set_wpc WPanic s)
      end
  | WCall c => Some (emit (EvShutdownCall c) (set_wpc (WShutdown c) s))
  | WShutdown _ | WSend _ | WExit | WPanic => None
  end.

(** One transition; [None] when the action is not enabled. *)
Definition step (cfg : config) (a : action) (s : state) : option state :=
  if crashed s then None else
  match a with
  | ACancel =>
      if cancelled s then Some s
      else Some (emit EvCancel
                   (mkState (mpc s) (wpc s) true (now s) (world s) (trace s)))
  | ATick dt =>
      Some (mkState (mpc s) (wpc s) (cancelled s) (now s + Z.of_N dt)
              (world s) (trace s))
  | ARunReturn err =>
      match mpc s with
      | MRun => Some (emit (EvRunReturn err) (set_mpc (MCheck err) s))
      | _ => None
      end
  | AShutdownReturn err =>
      match wpc s with
      | WShutdown _ =>
          Some (emit (EvShutdownReturn err) (set_wpc (WSend err) s))
      | _ => None
      end
  | AMain => step_main cfg s
  | AWatcher => step_watcher cfg s
  | AHandoff =>
      match wpc s, mpc s with
      | WSend err, MRecv => Some (set_mpc (MAfter err) (set_wpc WExit s))
      | _, _ => None
      end
  end.

Fixpoint run (cfg : config) (acts : list action) (s : state) : option state :=
  match acts with
  | [] => Some s
  | a :: acts' =>
      match step cfg a s with
      | Some s' => run cfg acts' s'
      | None => None
      end
  end.

(** Entry to [start]: the goroutine has been spawned and blocks on
    [ctx.Done()], the caller is inside [runFunc]. *)
Definition init (t0 : Z) (w0 : W) : state :=
  mkState MRun WWait false t0 w0 [].

(** [start(ctx, cfg, srv, runFunc)] under the schedule [acts]. *)
Definition start (cfg : config) (t0 : Z) (w0 : W) (acts : list action)
  : option state :=
  run cfg acts (init t0 w0).

(** The four exported entry points build the config and call [start];
    they differ only in the [runFunc] they pass, which the model leaves
    to the environment. *)
Definition ListenAndServe (opts : list Option) := start (newConfig opts).
Definition ListenAndServeTLS (opts : list Option) := start (newConfig opts).
Definition Serve (opts : list Option) := start (newConfig opts).
Definition ServeTLS (opts : list Option) := start (newConfig opts).

(** What [start] returned, if it has returned. *)
Definition result (s : state) : option goerror :=
  match mpc s with
  | MDone err => Some err
  | _ => None
  end.

End Httpctx.

Arguments config W : clear implicits.
Arguments state W : clear implicits.
Arguments Option W : clear implicits.

(** ** Invariants of [start]: definitions *)

Section Invariants.

Context {W : Type}.
Variable cfg : config W.
Variable t0 : Z.

(** [c] is what lines 77-82 compute at some clock reading of the run. *)
Definition computed_ctx (s : state W) (c : context) : Prop :=
  exists t, t0 <= t <= now s /\ c = shutdown_ctx cfg t.

(** The events of the calling goroutine, as its position dictates. *)
Definition main_inv (s : state W) : Prop :=
  let evs := filter is_main_ev (trace s) in
  match mpc s with
  | MRun => evs = []
  | MCheck r => evs = [EvRunReturn r]
  | MRecv => exists r, run_failed r = false /\ evs = [EvRunReturn r]
  | MAfter v =>
      exists r, run_failed r = false /\ evs = [EvRunReturn r] /\
                In (EvShutdownReturn v) (trace s)
  | MPanic =>
      exists r, run_failed r = false /\ evs = [EvRunReturn r] /\
                (exists v, In (EvShutdownReturn v) (trace s)) /\
                afterShutdown cfg = None
  | MRet v =>
      exists r, run_failed r = false /\
                evs = [EvRunReturn r; EvAfter v] /\
                In (EvShutdownReturn v) (trace s) /\
                afterShutdown cfg <> None
  | MDone v =>
      (run_failed v = true /\ evs = [EvRunReturn v; EvReturn v]) \/
      (exists r, run_failed r = false /\
                 evs = [EvRunReturn r; EvAfter v; EvReturn v] /\
                 In (EvShutdownReturn v) (trace s) /\
                 afterShutdown cfg <> None)
  end.

(** The events of the spawned goroutine, as its position dictates. *)
Definition watcher_inv (s : state W) : Prop :=
  let evs := filter is_watcher_ev (trace s) in
  let d := shutdownTimeout cfg in
  match wpc s with
  | WWait => evs = []
  | WTimeout => cancelled s = true /\ evs = []
  | WBefore c => cancelled s = true /\ computed_ctx s c /\ evs = []
  | WPanic => cancelled s = true /\ beforeShutdown cfg = None /\ evs = []
  | WCall c =>
      cancelled s = true /\ computed_ctx s c /\ evs = [EvBefore d] /\
      beforeShutdown cfg <> None
  | WShutdown c =>
      cancelled s = true /\ evs = [EvBefore d; EvShutdownCall c] /\
      beforeShutdown cfg <> None
  | WSend v =>
      cancelled s = true /\
      (exists c, evs = [EvBefore d; EvShutdownCall c; EvShutdownReturn v]) /\
      beforeShutdown cfg <> None
  | WExit =>
      cancelled s = true /\
      (exists c v, evs = [EvBefore d; EvShutdownCall c; EvShutdownReturn v]) /\
      beforeShutdown cfg <> None
  end.

(** Cross-goroutine order of the events of a trace; [d] is the
    configured timeout. *)
Record ordered (d : Duration) (tr : list event) : Prop := mkOrdered {
  ord_cancel : forall e,
    is_watcher_ev e = true -> In e tr -> precedes EvCancel e tr;
  ord_before : forall c,
    In (EvShutdownCall c) tr -> precedes (EvBefore d) (EvShutdownCall c) tr;
  ord_call : forall v,
    In (EvShutdownReturn v) tr ->
    exists c, precedes (EvShutdownCall c) (EvShutdownReturn v) tr;
  ord_after : forall v,
    In (EvAfter v) tr -> precedes (EvShutdownReturn v) (EvAfter v) tr;
  ord_return : forall v v',
    In (EvAfter v') tr -> In (EvReturn v) tr ->
    precedes (EvAfter v') (EvReturn v) tr;
  ord_result : forall v v',
    In (EvAfter v') tr -> In (EvReturn v) tr ->
    precedes (EvShutdownReturn v') (EvReturn v) tr
}.

(** What must already be in the trace for [e] to be appended. *)
Definition admissible (d : Duration) (tr : list event) (e : event) : Prop :=
  match e with
  | EvCancel | EvRunReturn _ | EvReturn _ => True
  | EvBefore _ => In EvCancel tr
  | EvShutdownCall _ => In EvCancel tr /\ In (EvBefore d) tr
  | EvShutdownReturn _ => In EvCancel tr /\ exists c, In (EvShutdownCall c) tr
  | EvAfter v => In (EvShutdownReturn v) tr /\ forall v', ~ In (EvReturn v') tr
  end.

Record invariant (s : state W) : Prop := mkInvariant {
  inv_main : main_inv s;
  inv_watcher : watcher_inv s;
  inv_clock : t0 <= now s;
  inv_cancel :
    filter is_cancel (trace s) = if cancelled s then [EvCancel] else [];
  inv_ctx : forall c, In (EvShutdownCall c) (trace s) -> computed_ctx s c;
  inv_order : ordered (shutdownTimeout cfg) (trace s)
}.

End Invariants.

(** ** Scenarios *)

(** Hooks that log their call, with [WithShutdownTimeout(time.Second)]. *)
Definition logging : config (list string) :=
  newConfig
    [ WithShutdownTimeout Second;
      BeforeShutdown (Some (fun _ w => w ++ ["before"%string]));
      AfterShutdown (Some (fun _ w => w ++ ["after"%string])) ].

Definition bind_error : error :=
  ErrNew "listen tcp: address already in use".

(** The address is taken: [runFunc] fails at once, nobody cancels. *)
Definition bind_failure : list action :=
  [ ARunReturn (Some bind_error); AMain ].

(** The rest of the way once Shutdown's result waits on [errc]:
    receive, call the hook, return. *)
Definition finish : list action := [ AHandoff; AMain; AMain ].

(** Cancel; the watcher shuts the server down, [runFunc] reports the
    closed server, Shutdown succeeds. *)
Definition until_handoff : list action :=
  [ ACancel; AWatcher; AWatcher; AWatcher; AWatcher;
    ARunReturn (Some ErrServerClosed); AMain; AShutdownReturn None ].

Definition clean_shutdown : list action := until_handoff ++ finish.

(** Cancel, then the drain outlasts the one second it was given; the
    schedule stops with Shutdown's result waiting on [errc]. *)
Definition slow_shutdown : list action :=
  [ ACancel; AWatcher; ATick 5; AWatcher; AWatcher; AWatcher;
    ARunReturn (Some ErrServerClosed); AMain;
    ATick 1000000000; AShutdownReturn (Some DeadlineExceeded) ].

(** Time passes between every two steps of the watcher: 5 ns before
    line 80, 7 ns before line 84, 11 ns before line 85. *)
Definition late_call : list action :=
  [ ACancel; AWatcher; ATick 5; AWatcher; ATick 7; AWatcher;
    ATick 11; AWatcher ].

(** Cancel and let the watcher run up to the Shutdown call. *)
Definition cancel_only : list action :=
  [ ACancel; AWatcher; AWatcher; AWatcher; AWatcher ].

(** [WithShutdownTimeout(-1)]: a timeout that is neither zero nor
    positive. *)
Definition negative_timeout : config (list string) :=
  newConfig [WithShutdownTimeout (-1)].

(** [BeforeShutdown(nil)] and [AfterShutdown(nil)]. *)
Definition nil_before : config (list string) :=
  newConfig [BeforeShutdown None].
Definition nil_after : config (list string) :=
  newConfig [AfterShutdown None].

(** ** Options as a caller can write them *)

Section OptionCalls.

Context {W : Type}.

(** [config] is unexported, so outside the package an [Option] can only
    come from one of the three constructors. *)
Inductive option_call : Type :=
| CallWithShutdownTimeout (d : Duration)
| CallBeforeShutdown (fn : option (Duration -> W -> W))
| CallAfterShutdown (fn : option (goerror -> W -> W)).

Definition to_option (c : option_call) : Option W :=
  match c with
  | CallWithShutdownTimeout d => WithShutdownTimeout d
  | CallBeforeShutdown fn => BeforeShutdown fn
  | CallAfterShutdown fn => AfterShutdown fn
  end.

(** The arguments of the calls of each kind, in the order given. *)
Definition timeouts (calls : list option_call) : list Duration :=
  flat_map (fun c => match c with
                     | CallWithShutdownTimeout d => [d]
                     | _ => []
                     end) calls.

Definition before_hooks (calls : list option_call)
  : list (option (Duration -> W -> W)) :=
  flat_map (fun c => match c with
                     | CallBeforeShutdown fn => [fn]
                     | _ => []
                     end) calls.

Definition after_hooks (calls : list option_call)
  : list (option (goerror -> W -> W)) :=
  flat_map (fun c => match c with
                     | CallAfterShutdown fn => [fn]
                     | _ => []
                     end) calls.

End OptionCalls.

Arguments option_call W : clear implicits.

(** ** What the hooks do to the world, and who holds the result *)

Definition is_hook_ev (e : event) : bool := is_before e || is_after e.

Section Bookkeeping.

Context {W : Type}.
Variable cfg : config W.

(** The effect on the world of the hook call an event records. *)
Definition hook_effect (e : event) (w : W) : W :=
  match e with
  | EvBefore d =>
      match beforeShutdown cfg with Some fn => fn d w | None => w end
  | EvAfter v =>
      match afterShutdown cfg with Some fn => fn v w | None => w end
  | _ => w
  end.

(** The world after the hook calls of a trace, from [w0]. *)
Definition hook_world (tr : list event) (w0 : W) : W :=
  fold_left (fun w e => hook_effect e w) tr w0.

(** The caller has received from [errc]. *)
Definition handed_over (s : state W) : Prop :=
  match mpc s with
  | MRun | MCheck _ | MRecv => False
  | MDone v => In (EvAfter v) (trace s)
  | MAfter _ | MRet _ | MPanic => True
  end.

Record bookkeeping (w0 : W) (s : state W) : Prop := mkBookkeeping {
  bk_exit : wpc s = WExit -> handed_over s;
  bk_world : world s = hook_world (trace s) w0;
  bk_hooks :
    filter is_hook_ev (trace s) =
    filter is_before (trace s) ++ filter is_after (trace s)
}.

(** The watcher holds [c], or has passed it to [srv.Shutdown]. *)
Definition holds_ctx (c : context) (s : state W) : Prop :=
  In (EvShutdownCall c) (trace s) \/
  wpc s = WBefore c \/ wpc s = WCall c \/ wpc s = WShutdown c.

(** A schedule that takes [start] from [s] to its return on the
    shutdown path, [v0] being what [srv.Shutdown] returns if it has not
    returned yet: the watcher runs up to the send, then the caller
    receives, calls the hook and returns. *)
Definition watcher_part (s : state W) (v0 : goerror) : list action :=
  match wpc s with
  | WWait => [AWatcher; AWatcher; AWatcher; AWatcher; AShutdownReturn v0]
  | WTimeout => [AWatcher; AWatcher; AWatcher; AShutdownReturn v0]
  | WBefore _ => [AWatcher; AWatcher; AShutdownReturn v0]
  | WCall _ => [AWatcher; AShutdownReturn v0]
  | WShutdown _ => [AShutdownReturn v0]
  | WSend _ | WExit | WPanic => []
  end.

Definition drive (s : state W) (v0 : goerror) : list action :=
  match mpc s with
  | MCheck _ => AMain :: watcher_part s v0 ++ finish
  | MRecv => watcher_part s v0 ++ finish
  | MAfter _ => [AMain; AMain]
  | MRet _ => [AMain]
  | MRun | MDone _ | MPanic => []
  end.

End Bookkeeping.

(** Options that set the timeout twice. *)
Definition timeout_twice : list (option_call (list string)) :=
  [ CallWithShutdownTimeout Second;
    CallBeforeShutdown (Some (fun _ w => w ++ ["before"%string]));
    CallWithShutdownTimeout 0 ].

(** ** Traces *)

Lemma precedes_snoc (a b e : event) (tr : list event) :
  precedes a b tr -> precedes a b (tr ++ [e]).
Proof.
  intros (l1 & l2 & l3 & ->).
  exists l1, l2, (l3 ++ [e]).
  now rewrite <- !app_assoc, <- !app_comm_cons, <- app_assoc.
Qed.

Lemma precedes_last (a b : event) (tr : list event) :
  In a tr -> precedes a b (tr ++ [b]).
Proof.
  intros Hin. apply in_split in Hin as (l1 & l2 & ->).
  exists l1, l2, []. now rewrite <- app_assoc.
Qed.

Lemma precedes_In (a b : event) (tr : list event) :
  precedes a b tr -> In a tr /\ In b tr.
Proof.
  intros (l1 & l2 & l3 & ->). split.
  - apply in_or_app. right. now left.
  - apply in_or_app. right. right. apply in_or_app. right. now left.
Qed.

Lemma filter_snoc (p : event -> bool) (tr : list event) (e : event) :
  filter p (tr ++ [e]) = filter p tr ++ (if p e then [e] else []).
Proof. now rewrite filter_app. Qed.

Lemma filter_mem (p : event -> bool) (tr l : list event) (e : event) :
  filter p tr = l -> In e l -> In e tr.
Proof. intros <- Hin. now apply filter_In in Hin. Qed.

Lemma filter_all (p : event -> bool) (tr l : list event) (e : event) :
  filter p tr = l -> p e = true -> In e tr -> In e l.
Proof. intros <- Hp Hin. now apply filter_In. Qed.

Lemma count_sub (p q : event -> bool) (tr : list event) :
  (forall e, p e = true -> q e = true) ->
  count p tr = count p (filter q tr).
Proof.
  intros Hpq. unfold count. induction tr as [|e tr IH]; simpl; [reflexivity|].
  destruct (q e) eqn:Hq, (p e) eqn:Hp; simpl; rewrite ?Hp; simpl; auto.
  apply Hpq in Hp. congruence.
Qed.

(** ** Invariants of [start]: preservation *)

Section Preservation.

Context {W : Type}.
Variable cfg : config W.
Variable t0 : Z.

Lemma ordered_nil (d : Duration) : ordered d [].
Proof. constructor; intros; contradiction. Qed.

Lemma ordered_snoc (d : Duration) (tr : list event) (e : event) :
  ordered d tr -> admissible d tr e -> ordered d (tr ++ [e]).
Proof.
  intros [Oc Ob Ocl Oa Or Ors] Hadm. constructor.
  - intros e' He' Hin. apply in_app_or in Hin as [Hin | [<- | []]].
    + apply precedes_snoc. auto.
    + apply precedes_last.
      destruct e; simpl in He'; try discriminate He';
        unfold admissible in Hadm; tauto.
  - intros c Hin. apply in_app_or in Hin as [Hin | [-> | []]].
    + apply precedes_snoc. auto.
    + apply precedes_last. unfold admissible in Hadm. tauto.
  - intros v Hin. apply in_app_or in Hin as [Hin | [-> | []]].
    + destruct (Ocl v Hin) as (c & Hc). exists c. now apply precedes_snoc.
    + destruct Hadm as (_ & c & Hc). exists c. now apply precedes_last.
  - intros v Hin. apply in_app_or in Hin as [Hin | [-> | []]].
    + apply precedes_snoc. auto.
    + apply precedes_last. unfold admissible in Hadm. tauto.
  - intros v v' Ha Hr.
    apply in_app_or in Hr as [Hr | [-> | []]].
    + apply in_app_or in Ha as [Ha | [-> | []]].
      * apply precedes_snoc. auto.
      * destruct Hadm as (_ & Hno). now apply Hno in Hr.
    + apply in_app_or in Ha as [Ha | [Ha | []]]; [ | discriminate Ha ].
      now apply precedes_last.
  - intros v v' Ha Hr.
    apply in_app_or in Hr as [Hr | [-> | []]].
    + apply in_app_or in Ha as [Ha | [-> | []]].
      * apply precedes_snoc. auto.
      * destruct Hadm as (_ & Hno). now apply Hno in Hr.
    + apply in_app_or in Ha as [Ha | [Ha | []]]; [ | discriminate Ha ].
      apply precedes_last. now apply Oa, precedes_In in Ha.
Qed.

Lemma invariant_init (w0 : W) : invariant cfg t0 (init t0 w0).
Proof.
  constructor; simpl; try reflexivity; try lia; try contradiction.
  apply ordered_nil.
Qed.


Lemma computed_ctx_mono (s s' : state W) (c : context) :
  now s <= now s' -> computed_ctx cfg t0 s c -> computed_ctx cfg t0 s' c.
Proof. intros Hle (t & Ht & ->). exists t. split; [lia | reflexivity]. Qed.

(** A step of the other goroutine or of the environment leaves
    [main_inv] alone, and likewise for [watcher_inv]. *)
Lemma main_inv_frame (s s' : state W) :
  mpc s' = mpc s ->
  filter is_main_ev (trace s') = filter is_main_ev (trace s) ->
  (forall e, In e (trace s) -> In e (trace s')) ->
  main_inv cfg s -> main_inv cfg s'.
Proof.
  unfold main_inv. intros -> -> Hsub.
  destruct (mpc s); auto.
  - intros (r & ? & ? & ?). exists r. auto.
  - intros (r & ? & ? & ? & ?). exists r. auto.
  - intros [?|(r & ? & ? & ? & ?)]; [now left|]. right. exists r. auto.
  - intros (r & ? & ? & (v & ?) & ?). exists r. eauto 6.
Qed.

Lemma watcher_inv_frame (s s' : state W) :
  wpc s' = wpc s ->
  cancelled s' = cancelled s ->
  now s <= now s' ->
  filter is_watcher_ev (trace s') = filter is_watcher_ev (trace s) ->
  watcher_inv cfg t0 s -> watcher_inv cfg t0 s'.
Proof.
  unfold watcher_inv. intros -> -> Hle ->.
  destruct (wpc s); auto.
  - intros (? & ? & ?). eauto using computed_ctx_mono.
  - intros (? & ? & ? & ?). eauto using computed_ctx_mono.
Qed.

Lemma in_snoc_l (e x : event) (tr : list event) : In x tr -> In x (tr ++ [e]).
Proof. intros. apply in_or_app. now left. Qed.

Lemma in_snoc_inv (e x : event) (tr : list event) :
  In x (tr ++ [e]) -> In x tr \/ x = e.
Proof. intros H. apply in_app_or in H as [H|[H|[]]]; auto. Qed.

Lemma inv_ctx_snoc (s s' : state W) (e : event) :
  trace s' = trace s ++ [e] -> now s <= now s' ->
  (forall c, e = EvShutdownCall c -> computed_ctx cfg t0 s c) ->
  (forall c, In (EvShutdownCall c) (trace s) -> computed_ctx cfg t0 s c) ->
  forall c, In (EvShutdownCall c) (trace s') -> computed_ctx cfg t0 s' c.
Proof.
  intros -> Hle He Hold c Hin.
  apply (computed_ctx_mono s); [assumption|].
  apply in_snoc_inv in Hin as [Hin | Heq]; auto.
Qed.

Lemma cancel_mem (s : state W) :
  filter is_cancel (trace s) = (if cancelled s then [EvCancel] else []) ->
  cancelled s = true -> In EvCancel (trace s).
Proof.
  intros H Hc. rewrite Hc in H. eapply filter_mem; [exact H | now left].
Qed.

Lemma invariant_step (a : action) (s s' : state W) :
  invariant cfg t0 s -> step cfg a s = Some s' -> invariant cfg t0 s'.
Proof.
  intros [Hm Hw Hclk Hcan Hctx Hord] Hstep.
  unfold step in Hstep.
  destruct (crashed s) eqn:Hcr; [discriminate|].
  destruct a.
  - (* ACancel *)
    destruct (cancelled s) eqn:Hc.
    { injection Hstep as <-. constructor; rewrite ?Hc; assumption. }
    injection Hstep as <-. constructor.
    + apply (main_inv_frame s); simpl; auto using in_snoc_l.
      now rewrite filter_snoc, app_nil_r.
    + unfold watcher_inv in *; simpl. rewrite filter_snoc, app_nil_r.
      rewrite Hc in Hw. destruct (wpc s); intuition discriminate.
    + assumption.
    + simpl. rewrite filter_snoc, Hcan. reflexivity.
    + apply (inv_ctx_snoc s _ EvCancel); simpl; auto; try lia. discriminate.
    + simpl. apply ordered_snoc; simpl; auto.
  - (* ATick *)
    injection Hstep as <-. constructor.
    + apply (main_inv_frame s); simpl; auto.
    + apply (watcher_inv_frame s); simpl; auto; lia.
    + simpl. lia.
    + assumption.
    + intros c Hin. apply (computed_ctx_mono s); simpl; auto; lia.
    + assumption.
  - (* ARunReturn *)
    destruct (mpc s) eqn:Hpc; try discriminate.
    injection Hstep as <-. constructor.
    + unfold main_inv in *; simpl. rewrite Hpc in Hm.
      rewrite filter_snoc, Hm. reflexivity.
    + apply (watcher_inv_frame s); simpl; auto; try lia.
      now rewrite filter_snoc, app_nil_r.
    + assumption.
    + simpl. now rewrite filter_snoc, app_nil_r.
    + apply (inv_ctx_snoc s _ (EvRunReturn err)); simpl; auto; try lia.
      discriminate.
    + simpl. apply ordered_snoc; simpl; auto.
  - (* AShutdownReturn *)
    destruct (wpc s) eqn:Hpc; try discriminate.
    injection Hstep as <-.
    unfold watcher_inv in Hw. rewrite Hpc in Hw.
    destruct Hw as (Hc & Hw & Hnn).
    constructor.
    + apply (main_inv_frame s); simpl; auto using in_snoc_l.
      now rewrite filter_snoc, app_nil_r.
    + unfold watcher_inv; simpl. split; [assumption|].
      split; [|assumption]. exists c.
      rewrite filter_snoc, Hw. reflexivity.
    + assumption.
    + simpl. now rewrite filter_snoc, app_nil_r.
    + apply (inv_ctx_snoc s _ (EvShutdownReturn err)); simpl; auto; try lia.
      discriminate.
    + simpl. apply ordered_snoc; simpl; auto. split.
      * now apply cancel_mem.
      * exists c. eapply filter_mem; [exact Hw | right; now left].
  - (* AMain *)
    unfold step_main in Hstep.
    destruct (mpc s) eqn:Hpc; try discriminate;
      unfold main_inv in Hm; rewrite Hpc in Hm.
    + (* line 88 *)
      destruct (run_failed err) eqn:Hrf; injection Hstep as <-; constructor.
      * unfold main_inv; simpl. left. split; [assumption|].
        rewrite filter_snoc, Hm. reflexivity.
      * apply (watcher_inv_frame s); simpl; auto; try lia.
        now rewrite filter_snoc, app_nil_r.
      * assumption.
      * simpl. now rewrite filter_snoc, app_nil_r.
      * apply (inv_ctx_snoc s _ (EvReturn err)); simpl; auto; try lia.
        discriminate.
      * simpl. apply ordered_snoc; simpl; auto.
      * unfold main_inv; simpl. exists err. auto.
      * apply (watcher_inv_frame s); simpl; auto; lia.
      * assumption.
      * assumption.
      * assumption.
      * assumption.
    + (* line 93 *)
      destruct Hm as (r & Hr & Hm & Hsr).
      destruct (afterShutdown cfg) eqn:Haft; injection Hstep as <-; constructor.
      * unfold main_inv; simpl. exists r. split; [assumption|].
        split; [|split].
        -- rewrite filter_snoc, Hm. reflexivity.
        -- now apply in_snoc_l.
        -- congruence.
      * apply (watcher_inv_frame s); simpl; auto; try lia.
        now rewrite filter_snoc, app_nil_r.
      * assumption.
      * simpl. now rewrite filter_snoc, app_nil_r.
      * apply (inv_ctx_snoc s _ (EvAfter err)); simpl; auto; try lia.
        discriminate.
      * simpl. apply ordered_snoc; simpl; auto. split; [assumption|].
        intros v' Hin. apply (filter_all _ _ _ _ Hm) in Hin; [|reflexivity].
        destruct Hin as [Hin|[]]. discriminate.
      * unfold main_inv; simpl. exists r. eauto.
      * apply (watcher_inv_frame s); simpl; auto; lia.
      * assumption.
      * assumption.
      * assumption.
      * assumption.
    + (* line 94 *)
      destruct Hm as (r & Hr & Hm & Hsr & Hnn).
      injection Hstep as <-; constructor.
      * unfold main_inv; simpl. right. exists r. split; [assumption|].
        split; [|split].
        -- rewrite filter_snoc, Hm. reflexivity.
        -- now apply in_snoc_l.
        -- assumption.
      * apply (watcher_inv_frame s); simpl; auto; try lia.
        now rewrite filter_snoc, app_nil_r.
      * assumption.
      * simpl. now rewrite filter_snoc, app_nil_r.
      * apply (inv_ctx_snoc s _ (EvReturn err)); simpl; auto; try lia.
        discriminate.
      * simpl. apply ordered_snoc; simpl; auto.
  - (* AWatcher *)
    unfold step_watcher in Hstep.
    destruct (wpc s) eqn:Hpc; try discriminate;
      unfold watcher_inv in Hw; rewrite Hpc in Hw.
    + (* line 75 *)
      destruct (cancelled s) eqn:Hc; [|discriminate].
      injection Hstep as <-. constructor.
      * apply (main_inv_frame s); simpl; auto.
      * unfold watcher_inv; simpl. auto.
      * assumption.
      * simpl. now rewrite Hc.
      * assumption.
      * assumption.
    + (* lines 77-82 *)
      destruct Hw as (Hc & Hw).
      injection Hstep as <-. constructor.
      * apply (main_inv_frame s); simpl; auto.
      * unfold watcher_inv; simpl. split; [assumption|]. split; [|assumption].
        exists (now s). split; [simpl; lia | reflexivity].
      * assumption.
      * assumption.
      * assumption.
      * assumption.
    + (* line 84 *)
      destruct Hw as (Hc & Hcc & Hw).
      destruct (beforeShutdown cfg) eqn:Hbef; injection Hstep as <-;
        constructor.
      * apply (main_inv_frame s); simpl; auto using in_snoc_l.
        now rewrite filter_snoc, app_nil_r.
      * unfold watcher_inv; simpl. repeat split; auto.
        -- rewrite filter_snoc, Hw. reflexivity.
        -- congruence.
      * assumption.
      * simpl. now rewrite filter_snoc, app_nil_r.
      * apply (inv_ctx_snoc s _ (EvBefore (shutdownTimeout cfg)));
          simpl; auto; try lia. discriminate.
      * simpl. apply ordered_snoc; simpl; auto. now apply cancel_mem.
      * apply (main_inv_frame s); simpl; auto.
      * unfold watcher_inv; simpl. auto.
      * assumption.
      * assumption.
      * assumption.
      * assumption.
    + (* line 85 *)
      destruct Hw as (Hc & Hcc & Hw & Hnn).
      injection Hstep as <-. constructor.
      * apply (main_inv_frame s); simpl; auto using in_snoc_l.
        now rewrite filter_snoc, app_nil_r.
      * unfold watcher_inv; simpl. split; [assumption|].
        split; [|assumption].
        rewrite filter_snoc, Hw. reflexivity.
      * assumption.
      * simpl. now rewrite filter_snoc, app_nil_r.
      * apply (inv_ctx_snoc s _ (EvShutdownCall c)); simpl; auto; try lia.
        intros c' Heq. injection Heq as <-. assumption.
      * simpl. apply ordered_snoc; simpl; auto. split.
        -- now apply cancel_mem.
        -- eapply filter_mem; [exact Hw | now left].
  - (* AHandoff *)
    destruct (wpc s) eqn:Hpc; try discriminate.
    destruct (mpc s) eqn:Hmpc; try discriminate.
    unfold watcher_inv in Hw; rewrite Hpc in Hw.
    unfold main_inv in Hm; rewrite Hmpc in Hm.
    destruct Hw as (Hc & (c & Hw) & Hnn). destruct Hm as (r & Hr & Hm).
    injection Hstep as <-. constructor.
    + unfold main_inv; simpl. exists r. repeat split; auto.
      eapply filter_mem; [exact Hw | right; right; now left].
    + unfold watcher_inv; simpl. split; [assumption|]. eauto.
    + assumption.
    + assumption.
    + assumption.
    + assumption.
Qed.

Lemma invariant_run (acts : list action) (s s' : state W) :
  invariant cfg t0 s -> run cfg acts s = Some s' -> invariant cfg t0 s'.
Proof.
  revert s. induction acts as [|a acts IH]; simpl; intros s Hinv Hrun.
  - now injection Hrun as <-.
  - destruct (step cfg a s) as [s1|] eqn:Hstep; [|discriminate].
    eauto using invariant_step.
Qed.

Lemma invariant_start (w0 : W) (acts : list action) (s : state W) :
  start cfg t0 w0 acts = Some s -> invariant cfg t0 s.
Proof. apply invariant_run, invariant_init. Qed.

End Preservation.

(** ** Consequences of the invariant *)

Section Facts.

Context {W : Type}.
Variable cfg : config W.
Variable t0 : Z.

Lemma step_cancelled (a : action) (s s' : state W) :
  a <> ACancel -> step cfg a s = Some s' -> cancelled s' = cancelled s.
Proof.
  unfold step, step_main, step_watcher. intros Ha Hstep.
  destruct (crashed s); [discriminate|].
  destruct a; try congruence;
    repeat match type of Hstep with
      | context [match ?x with _ => _ end] =>
          destruct x eqn:?; try discriminate
      end;
    injection Hstep as <-; simpl; congruence.
Qed.

(** A schedule without [ACancel] leaves the context as it was. *)
Lemma run_cancelled (acts : list action) (s s' : state W) :
  ~ In ACancel acts -> run cfg acts s = Some s' -> cancelled s' = cancelled s.
Proof.
  revert s. induction acts as [|a acts IH]; simpl; intros s Hno Hrun.
  - now injection Hrun as <-.
  - destruct (step cfg a s) as [s1|] eqn:Hstep; [|discriminate].
    rewrite (IH s1); [ | tauto | assumption ].
    apply (step_cancelled a); [ intros -> | assumption ]. tauto.
Qed.

(** Until the context is cancelled the spawned goroutine stays at
    line 75. *)
Lemma watcher_idle (s : state W) :
  invariant cfg t0 s -> cancelled s = false -> wpc s = WWait.
Proof.
  intros [_ Hw _ _ _ _] Hc. unfold watcher_inv in Hw. rewrite Hc in Hw.
  destruct (wpc s); intuition discriminate.
Qed.

Lemma count_main (p : event -> bool) (tr : list event) :
  (forall e, p e = true -> is_main_ev e = true) ->
  count p tr = count p (filter is_main_ev tr).
Proof. apply count_sub. Qed.

Lemma count_watcher (p : event -> bool) (tr : list event) :
  (forall e, p e = true -> is_watcher_ev e = true) ->
  count p tr = count p (filter is_watcher_ev tr).
Proof. apply count_sub. Qed.

Lemma after_is_main (e : event) : is_after e = true -> is_main_ev e = true.
Proof. now destruct e. Qed.

Lemma return_is_main (e : event) : is_return e = true -> is_main_ev e = true.
Proof. now destruct e. Qed.

Lemma before_is_watcher (e : event) :
  is_before e = true -> is_watcher_ev e = true.
Proof. now destruct e. Qed.

Lemma call_is_watcher (e : event) :
  is_shutdown_call e = true -> is_watcher_ev e = true.
Proof. now destruct e. Qed.

(** The events of the spawned goroutine form a prefix of
    before-hook, Shutdown call, Shutdown return. *)
Lemma watcher_events (s : state W) :
  invariant cfg t0 s ->
  let d := shutdownTimeout cfg in
  let evs := filter is_watcher_ev (trace s) in
  evs = [] \/ evs = [EvBefore d] \/
  (exists c, evs = [EvBefore d; EvShutdownCall c]) \/
  (exists c v, evs = [EvBefore d; EvShutdownCall c; EvShutdownReturn v]).
Proof.
  intros [_ Hw _ _ _ _]. unfold watcher_inv in Hw. simpl.
  destruct (wpc s).
  - now left.
  - left. tauto.
  - left. tauto.
  - right; left. tauto.
  - right; right; left. exists c. tauto.
  - destruct Hw as (_ & (c & Hc) & _). right; right; right. eauto.
  - destruct Hw as (_ & (c & v & Hc) & _). right; right; right. eauto.
  - left. tauto.
Qed.

(** The events of the calling goroutine, by how far it got. *)
Lemma main_events (s : state W) :
  invariant cfg t0 s ->
  let evs := filter is_main_ev (trace s) in
  evs = [] \/
  (exists r, evs = [EvRunReturn r]) \/
  (exists r, run_failed r = true /\ evs = [EvRunReturn r; EvReturn r] /\
             mpc s = MDone r) \/
  (exists r v, run_failed r = false /\ evs = [EvRunReturn r; EvAfter v] /\
               mpc s = MRet v) \/
  (exists r v, run_failed r = false /\
               evs = [EvRunReturn r; EvAfter v; EvReturn v] /\
               mpc s = MDone v).
Proof.
  intros [Hm _ _ _ _ _]. unfold main_inv in Hm. simpl.
  destruct (mpc s) eqn:Hpc.
  - now left.
  - right; left. eauto.
  - destruct Hm as (r & _ & Hm). right; left. eauto.
  - destruct Hm as (r & _ & Hm & _). right; left. eauto.
  - destruct Hm as (r & Hr & Hm & _). right; right; right; left. eauto 6.
  - destruct Hm as [(Hr & Hm) | (r & Hr & Hm & _)].
    + right; right; left. eauto.
    + right; right; right; right. eauto 6.
  - destruct Hm as (r & _ & Hm & _). right; left. eauto.
Qed.

End Facts.

(** ** The run-failure return (lines 88-90) *)

Section RunFailure.

Context {W : Type}.
Variable cfg : config W.
Variable t0 : Z.

Lemma run_return_unique (s : state W) (r r' : goerror) (l : list event) :
  filter is_main_ev (trace s) = EvRunReturn r :: l ->
  ~ In (EvRunReturn r') l ->
  In (EvRunReturn r') (trace s) -> r' = r.
Proof.
  intros Hf Hl Hin.
  apply (filter_all _ _ _ _ Hf) in Hin; [|reflexivity].
  destruct Hin as [Heq | Hin]; [congruence | contradiction].
Qed.

(** What [runFunc] returned decides which way line 88 goes. *)
Lemma run_return_failed (s : state W) (r : goerror) :
  invariant cfg t0 s ->
  In (EvRunReturn r) (trace s) ->
  run_failed r = true ->
  mpc s = MCheck r \/ mpc s = MDone r.
Proof.
  intros [Hm _ _ _ _ _] Hin Hr. unfold main_inv in Hm.
  destruct (mpc s).
  - apply (filter_all _ _ _ _ Hm) in Hin; [contradiction | reflexivity].
  - left. f_equal. symmetry.
    apply (run_return_unique s err r []); simpl; auto.
  - destruct Hm as (r0 & Hr0 & Hm).
    assert (r = r0) by (apply (run_return_unique s r0 r []); simpl; auto).
    congruence.
  - destruct Hm as (r0 & Hr0 & Hm & _).
    assert (r = r0) by (apply (run_return_unique s r0 r []); simpl; auto).
    congruence.
  - destruct Hm as (r0 & Hr0 & Hm & _).
    assert (r = r0).
    { apply (run_return_unique s r0 r [EvAfter err]); simpl; auto.
      intros [Heq|[]]; discriminate. }
    congruence.
  - destruct Hm as [(Hr0 & Hm) | (r0 & Hr0 & Hm & _)].
    + right. f_equal. symmetry.
      apply (run_return_unique s err r [EvReturn err]); simpl; auto.
      intros [Heq|[]]; discriminate.
    + assert (r = r0).
      { apply (run_return_unique s r0 r [EvAfter err; EvReturn err]);
          simpl; auto.
        intros [Heq|[Heq|[]]]; discriminate. }
      congruence.
  - destruct Hm as (r0 & Hr0 & Hm & _).
    assert (r = r0) by (apply (run_return_unique s r0 r []); simpl; auto).
    congruence.
Qed.

Lemma run_return_soft (s : state W) (r : goerror) :
  invariant cfg t0 s ->
  In (EvRunReturn r) (trace s) ->
  run_failed r = false ->
  forall v, result s = Some v ->
  filter is_main_ev (trace s) = [EvRunReturn r; EvAfter v; EvReturn v] /\
  In (EvShutdownReturn v) (trace s) /\ afterShutdown cfg <> None.
Proof.
  intros [Hm _ _ _ _ _] Hin Hr v Hres. unfold main_inv in Hm.
  unfold result in Hres. destruct (mpc s); try discriminate.
  injection Hres as ->.
  destruct Hm as [(Hr0 & Hm) | (r0 & Hr0 & Hm & Hsr & Hnn)].
  - assert (r = v).
    { apply (run_return_unique s v r [EvReturn v]); simpl; auto.
      intros [Heq|[]]; discriminate. }
    congruence.
  - assert (r = r0).
    { apply (run_return_unique s r0 r [EvAfter v; EvReturn v]); simpl; auto.
      intros [Heq|[Heq|[]]]; discriminate. }
    subst r0. auto.
Qed.

(** C1. If the context is never cancelled and [runFunc] returns an error
    that is not (and does not wrap) [http.ErrServerClosed], then [start]
    returns exactly that error: either it already has, or the calling
    goroutine is at the test of line 88 and its next step is the return
    of line 89.  [cfg.afterShutdown] is not called, before or by that
    step. *)
Theorem run_failure_is_returned
    (w0 : W) (acts : list action) (s : state W) (e : error) :
  start cfg t0 w0 acts = Some s ->
  ~ In ACancel acts ->
  In (EvRunReturn (Some e)) (trace s) ->
  errors_Is e ErrServerClosed = false ->
  count is_after (trace s) = 0%nat /\
  (result s = Some (Some e) \/
   result s = None /\
   exists s', step cfg AMain s = Some s' /\
              result s' = Some (Some e) /\
              count is_after (trace s') = 0%nat).
Proof.
  intros Hstart Hno Hin His.
  pose proof (invariant_start cfg t0 w0 acts s Hstart) as Hinv.
  assert (Hrf : run_failed (Some e) = true) by (simpl; now rewrite His).
  assert (Hc : cancelled s = false).
  { unfold start in Hstart. now rewrite (run_cancelled cfg acts _ s Hno Hstart). }
  pose proof (watcher_idle cfg t0 s Hinv Hc) as Hw.
  destruct Hinv as [Hm _ _ _ _ _].
  rewrite (count_main is_after) by apply after_is_main.
  destruct (run_return_failed s (Some e)
              (invariant_start cfg t0 w0 acts s Hstart) Hin Hrf) as [Hpc | Hpc];
    unfold main_inv in Hm; rewrite Hpc in Hm.
  - rewrite Hm. split; [reflexivity|]. right.
    unfold result. rewrite Hpc. split; [reflexivity|].
    unfold step, crashed, step_main. rewrite Hpc, Hw, Hrf.
    eexists. split; [reflexivity|]. split; [reflexivity|].
    simpl. rewrite (count_main is_after) by apply after_is_main.
    rewrite filter_snoc, Hm. reflexivity.
  - destruct Hm as [(_ & Hm) | (r & Hr & Hm & _)].
    + rewrite Hm. split; [reflexivity|]. left. unfold result. now rewrite Hpc.
    + exfalso.
      apply (filter_all _ _ _ _ Hm) in Hin; [|reflexivity].
      destruct Hin as [Heq|[Heq|[Heq|[]]]]; try discriminate. congruence.
Qed.

End RunFailure.

(** ** The shutdown path (lines 92-94) *)

Section ShutdownPath.

Context {W : Type}.
Variable cfg : config W.
Variable t0 : Z.

(** [srv.Shutdown] returns at most one value in a run. *)
Lemma shutdown_result_unique (s : state W) (v v' : goerror) :
  invariant cfg t0 s ->
  In (EvShutdownReturn v) (trace s) ->
  In (EvShutdownReturn v') (trace s) -> v' = v.
Proof.
  intros Hinv Hv Hv'.
  destruct (watcher_events cfg t0 s Hinv)
    as [He | [He | [(c & He) | (c & v0 & He)]]];
    apply (filter_all _ _ _ _ He) in Hv; try reflexivity;
    apply (filter_all _ _ _ _ He) in Hv'; try reflexivity;
    simpl in Hv, Hv'.
  - contradiction.
  - destruct Hv as [Hv|[]]. discriminate.
  - destruct Hv as [Hv|[Hv|[]]]; discriminate.
  - destruct Hv as [Hv|[Hv|[Hv|[]]]]; try discriminate.
    destruct Hv' as [Hv'|[Hv'|[Hv'|[]]]]; try discriminate. congruence.
Qed.

Lemma run_failed_false (r : goerror) :
  r = None \/ (exists e, r = Some e /\ errors_Is e ErrServerClosed = true) ->
  run_failed r = false.
Proof. intros [-> | (e & -> & He)]; simpl; [reflexivity | now rewrite He]. Qed.

(** C3. On the path through lines 92-94 ([runFunc] returned nil or the
    closed sentinel): [cfg.afterShutdown] is called at most once, only
    after [srv.Shutdown] has returned and with the value it returned;
    when [start] has returned it was called exactly once, before the
    return.  And the path is taken: once the watcher offers [v] on
    [errc] and the caller waits on it, the handoff, the hook call and
    the return follow, the hook acting on the world with [v]. *)
Theorem after_hook_on_shutdown_path
    (w0 : W) (acts : list action) (s : state W) (r : goerror) :
  start cfg t0 w0 acts = Some s ->
  In (EvRunReturn r) (trace s) ->
  r = None \/ (exists e, r = Some e /\ errors_Is e ErrServerClosed = true) ->
  (count is_after (trace s) <= 1)%nat /\
  (forall v, In (EvAfter v) (trace s) ->
     precedes (EvShutdownReturn v) (EvAfter v) (trace s) /\
     forall v', In (EvShutdownReturn v') (trace s) -> v' = v) /\
  (forall v, result s = Some v ->
     count is_after (trace s) = 1%nat /\
     precedes (EvAfter v) (EvReturn v) (trace s)) /\
  (forall v g, mpc s = MRecv -> wpc s = WSend v ->
     afterShutdown cfg = Some g ->
     exists s', run cfg [AHandoff; AMain; AMain] s = Some s' /\
                result s' = Some v /\
                trace s' = trace s ++ [EvAfter v; EvReturn v] /\
                world s' = g v (world s)).
Proof.
  intros Hstart Hin Hr. apply run_failed_false in Hr.
  pose proof (invariant_start cfg t0 w0 acts s Hstart) as Hinv.
  pose proof (inv_order cfg t0 s Hinv) as Hord.
  repeat split.
  - rewrite (count_main is_after) by apply after_is_main.
    destruct (main_events cfg t0 s Hinv)
      as [He | [(r1 & He) | [(r1 & _ & He & _) | [(r1 & v1 & _ & He & _)
                                                 | (r1 & v1 & _ & He & _)]]]];
      rewrite He; unfold count; simpl; lia.
  - now apply (ord_after _ _ Hord).
  - intros v' Hv'. apply (ord_after _ _ Hord), precedes_In in H as (Hsr & _).
    now apply (shutdown_result_unique s v v' Hinv).
  - destruct (run_return_soft cfg t0 s r Hinv Hin Hr v H) as (Hm & _).
    rewrite (count_main is_after) by apply after_is_main.
    now rewrite Hm.
  - destruct (run_return_soft cfg t0 s r Hinv Hin Hr v H) as (Hm & _).
    apply (ord_return _ _ Hord).
    + eapply filter_mem; [exact Hm | right; now left].
    + eapply filter_mem; [exact Hm | right; right; now left].
  - intros v g Hm Hw Hg.
    unfold run, step, crashed, step_main; simpl.
    rewrite Hm, Hw; simpl. rewrite Hg; simpl.
    eexists. split; [reflexivity|]. simpl.
    rewrite <- app_assoc. auto.
Qed.

End ShutdownPath.

(** ** The watcher goroutine (lines 74-86) *)

Section Watcher.

Context {W : Type}.
Variable cfg : config W.
Variable t0 : Z.

(** The caller cannot have panicked at line 93 while the watcher has
    not yet entered [srv.Shutdown]. *)
Lemma early_not_crashed (s : state W) :
  invariant cfg t0 s ->
  (forall v, ~ In (EvShutdownReturn v) (trace s)) ->
  wpc s <> WPanic ->
  crashed s = false.
Proof.
  intros [Hm _ _ _ _ _] Hno Hw. unfold crashed.
  destruct (mpc s) eqn:Hpc; destruct (wpc s); try reflexivity;
    try congruence;
    unfold main_inv in Hm; rewrite Hpc in Hm;
    destruct Hm as (_ & _ & _ & (v & Hv) & _); now apply Hno in Hv.
Qed.

Lemma no_shutdown_return (tr l : list event) :
  filter is_watcher_ev tr = l ->
  (forall v, ~ In (EvShutdownReturn v) l) ->
  forall v, ~ In (EvShutdownReturn v) tr.
Proof.
  intros Hf Hl v Hin. apply (Hl v).
  now apply (filter_all _ _ _ _ Hf) in Hin.
Qed.

(** Once the context is cancelled the watcher runs, without waiting for
    anyone, up to the call of [srv.Shutdown]; the before-hook has then
    run exactly once, and if it had not run before, it was applied to
    the timeout on the way. *)
Lemma watcher_reaches_shutdown (s : state W) (f : Duration -> W -> W) :
  invariant cfg t0 s ->
  cancelled s = true ->
  beforeShutdown cfg = Some f ->
  exists k s',
    (k <= 4)%nat /\
    run cfg (repeat AWatcher k) s = Some s' /\
    count is_before (trace s') = 1%nat /\
    (exists c, In (EvShutdownCall c) (trace s')) /\
    (count is_before (trace s) = 0%nat ->
     world s' = f (shutdownTimeout cfg) (world s)).
Proof.
  intros Hinv Hc Hf.
  pose proof (inv_watcher cfg t0 s Hinv) as Hw.
  pose proof (early_not_crashed s Hinv) as Hcr.
  unfold watcher_inv in Hw. unfold crashed in Hcr.
  destruct s as [m w c n wd tr]; simpl in *. subst c.
  destruct w.
  5-7: exists 0%nat; eexists; split; [lia|]; split; [reflexivity|]; simpl;
       rewrite (count_watcher is_before) by apply before_is_watcher.
  - (* line 75 *)
    assert (Hm : m <> MPanic).
    { intros ->. discriminate Hcr; [|congruence].
      apply (no_shutdown_return _ []); auto. }
    destruct m; try congruence;
      exists 4%nat; eexists; (split; [lia|]);
      (split; [cbn; rewrite Hf; cbn; reflexivity|]); simpl trace;
      rewrite (count_watcher is_before) by apply before_is_watcher;
      rewrite !filter_snoc, Hw; (split; [reflexivity|]);
      (split; [eexists; apply in_or_app; right; now left | reflexivity]).
  - (* lines 77-82 *)
    destruct Hw as (_ & Hw).
    assert (Hm : m <> MPanic).
    { intros ->. discriminate Hcr; [|congruence].
      apply (no_shutdown_return _ []); auto. }
    destruct m; try congruence;
      exists 3%nat; eexists; (split; [lia|]);
      (split; [cbn; rewrite Hf; cbn; reflexivity|]); simpl trace;
      rewrite (count_watcher is_before) by apply before_is_watcher;
      rewrite !filter_snoc, Hw; (split; [reflexivity|]);
      (split; [eexists; apply in_or_app; right; now left | reflexivity]).
  - (* line 84 *)
    destruct Hw as (_ & _ & Hw).
    assert (Hm : m <> MPanic).
    { intros ->. discriminate Hcr; [|congruence].
      apply (no_shutdown_return _ []); auto. }
    destruct m; try congruence;
      exists 2%nat; eexists; (split; [lia|]);
      (split; [cbn; rewrite Hf; cbn; reflexivity|]); simpl trace;
      rewrite (count_watcher is_before) by apply before_is_watcher;
      rewrite !filter_snoc, Hw; (split; [reflexivity|]);
      (split; [eexists; apply in_or_app; right; now left | reflexivity]).
  - (* line 85, before the call *)
    destruct Hw as (_ & _ & Hw & _).
    assert (Hm : m <> MPanic).
    { intros ->. discriminate Hcr; [|congruence].
      apply (no_shutdown_return _ [EvBefore (shutdownTimeout cfg)]); auto.
      intros v [Hv|[]]. discriminate. }
    destruct m; try congruence;
      exists 1%nat; eexists; (split; [lia|]);
      (split; [cbn; reflexivity|]); simpl trace;
      rewrite (count_watcher is_before) by apply before_is_watcher;
      rewrite !filter_snoc, Hw; (split; [reflexivity|]);
      (split; [eexists; apply in_or_app; right; now left |]);
      rewrite (count_watcher is_before) by apply before_is_watcher;
      rewrite Hw; discriminate.
  - (* inside Shutdown *)
    destruct Hw as (_ & Hw & _). rewrite Hw. split; [reflexivity|]. split.
    + exists c. eapply filter_mem; [exact Hw | right; now left].
    + discriminate.
  - destruct Hw as (_ & (c & Hw) & _). rewrite Hw. split; [reflexivity|].
    split.
    + exists c. eapply filter_mem; [exact Hw | right; now left].
    + discriminate.
  - destruct Hw as (_ & (c & v & Hw) & _). rewrite Hw. split; [reflexivity|].
    split.
    + exists c. eapply filter_mem; [exact Hw | right; now left].
    + discriminate.
  - destruct Hw as (_ & Hnil & _). congruence.
Qed.

(** Only lines 77-82 produce the context that reaches [srv.Shutdown]. *)
Lemma shutdown_ctx_cases (c : context) (t : Z) :
  c = shutdown_ctx cfg t ->
  (shutdownTimeout cfg <= 0 /\ c = Background) \/
  (0 < shutdownTimeout cfg /\ c = WithDeadline (t + shutdownTimeout cfg)).
Proof.
  intros ->. unfold shutdown_ctx, WithTimeout.
  destruct (0 <? shutdownTimeout cfg) eqn:Hd.
  - right. split; [now apply Z.ltb_lt | reflexivity].
  - left. split; [now apply Z.ltb_ge | reflexivity].
Qed.

(** C7. [srv.Shutdown] is called at most once in a run, not at all while
    the context is not cancelled, and every call comes after the
    cancellation.  Once Shutdown has returned, whatever it returned, the
    watcher goroutine has no step of its own left: there is no retry. *)
Theorem shutdown_at_most_once
    (w0 : W) (acts : list action) (s : state W) :
  start cfg t0 w0 acts = Some s ->
  (count is_shutdown_call (trace s) <= 1)%nat /\
  (cancelled s = false -> count is_shutdown_call (trace s) = 0%nat) /\
  (forall c, In (EvShutdownCall c) (trace s) ->
     precedes EvCancel (EvShutdownCall c) (trace s)) /\
  (forall v, In (EvShutdownReturn v) (trace s) ->
     step cfg AWatcher s = None).
Proof.
  intros Hstart.
  pose proof (invariant_start cfg t0 w0 acts s Hstart) as Hinv.
  pose proof (inv_order cfg t0 s Hinv) as Hord.
  pose proof (watcher_events cfg t0 s Hinv) as Hev. simpl in Hev.
  split; [|split; [|split]].
  - rewrite (count_watcher is_shutdown_call) by apply call_is_watcher.
    destruct Hev as [He | [He | [(c & He) | (c & v & He)]]];
      rewrite He; unfold count; simpl; lia.
  - intros Hc.
    rewrite (count_watcher is_shutdown_call) by apply call_is_watcher.
    pose proof (inv_watcher cfg t0 s Hinv) as Hw. unfold watcher_inv in Hw.
    rewrite (watcher_idle cfg t0 s Hinv Hc) in Hw. now rewrite Hw.
  - intros c Hc. now apply (ord_cancel _ _ Hord).
  - intros v Hv.
    pose proof (inv_watcher cfg t0 s Hinv) as Hw. unfold watcher_inv in Hw.
    unfold step, step_watcher. destruct (crashed s); [reflexivity|].
    destruct (wpc s); try reflexivity; exfalso.
    + apply (filter_all _ _ _ _ Hw) in Hv; [contradiction | reflexivity].
    + destruct Hw as (_ & Hw).
      apply (filter_all _ _ _ _ Hw) in Hv; [contradiction | reflexivity].
    + destruct Hw as (_ & _ & Hw).
      apply (filter_all _ _ _ _ Hw) in Hv; [contradiction | reflexivity].
    + destruct Hw as (_ & _ & Hw & _).
      apply (filter_all _ _ _ _ Hw) in Hv; [|reflexivity].
      destruct Hv as [Hv|[]]. discriminate.
Qed.

(** C9. A negative [cfg.shutdownTimeout] behaves like zero: Shutdown is
    called with [context.Background()].  The context carries a deadline
    exactly when the timeout is strictly positive. *)
Theorem negative_timeout_is_unbounded
    (w0 : W) (acts : list action) (s : state W) (c : context) :
  start cfg t0 w0 acts = Some s ->
  In (EvShutdownCall c) (trace s) ->
  (shutdownTimeout cfg < 0 -> c = Background) /\
  ((exists deadline, c = WithDeadline deadline) <-> 0 < shutdownTimeout cfg).
Proof.
  intros Hstart Hc.
  pose proof (invariant_start cfg t0 w0 acts s Hstart) as Hinv.
  destruct (inv_ctx cfg t0 s Hinv c Hc) as (t & Ht & Hct).
  destruct (shutdown_ctx_cases c t Hct) as [(Hd & ->) | (Hd & ->)].
  - split; [reflexivity|]. split; [intros (dl & Hdl); discriminate | lia].
  - split; [lia|]. split; [auto | eauto].
Qed.

End Watcher.

(** ** Configuration (lines 18-41 and 97-109) *)

Section Config.

Context {W : Type}.

Lemma newConfig_snoc (opts : list (Option W)) (opt : Option W) :
  newConfig (opts ++ [opt]) = opt (newConfig opts).
Proof. unfold newConfig. now rewrite fold_left_app. Qed.

(** With both hooks set, neither goroutine can panic. *)
Lemma never_crashes (cfg : config W) (t0 : Z) (s : state W) :
  beforeShutdown cfg <> None -> afterShutdown cfg <> None ->
  invariant cfg t0 s -> crashed s = false.
Proof.
  intros Hb Ha [Hm Hw _ _ _ _]. unfold crashed, main_inv, watcher_inv in *.
  destruct (mpc s).
  7: { destruct Hm as (_ & _ & _ & _ & Hnil). contradiction. }
  all: destruct (wpc s); try reflexivity;
    destruct Hw as (_ & Hnil & _); contradiction.
Qed.

(** Hooks that do nothing leave the world as it was. *)
Lemma step_world (cfg : config W) (a : action) (s s' : state W) :
  (forall f, beforeShutdown cfg = Some f -> forall d w, f d w = w) ->
  (forall g, afterShutdown cfg = Some g -> forall e w, g e w = w) ->
  step cfg a s = Some s' -> world s' = world s.
Proof.
  unfold step, step_main, step_watcher. intros Hb Ha Hstep.
  destruct (crashed s); [discriminate|].
  destruct a;
    repeat match type of Hstep with
      | context [match ?x with _ => _ end] =>
          destruct x eqn:?; try discriminate
      end;
    injection Hstep as <-; simpl; auto.
Qed.

Lemma run_world (cfg : config W) (acts : list action) (s s' : state W) :
  (forall f, beforeShutdown cfg = Some f -> forall d w, f d w = w) ->
  (forall g, afterShutdown cfg = Some g -> forall e w, g e w = w) ->
  run cfg acts s = Some s' -> world s' = world s.
Proof.
  intros Hb Ha. revert s.
  induction acts as [|a acts IH]; simpl; intros s Hrun.
  - now injection Hrun as <-.
  - destruct (step cfg a s) as [s1|] eqn:Hstep; [|discriminate].
    rewrite (IH s1 Hrun). eauto using step_world.
Qed.

(** C8. Without options, [newConfig] yields a 30 second timeout and two
    hooks that are functions (not nil) and do nothing.  A run under that
    config therefore never calls a nil func, and the hooks leave the
    world untouched. *)
Theorem newConfig_defaults :
  shutdownTimeout (@newConfig W []) = 30 * Second /\
  30 * Second = 30000000000 /\
  (exists f, beforeShutdown (@newConfig W []) = Some f /\
             forall d w, f d w = w) /\
  (exists g, afterShutdown (@newConfig W []) = Some g /\
             forall e w, g e w = w) /\
  (forall t0 w0 acts s,
     start (@newConfig W []) t0 w0 acts = Some s ->
     crashed s = false /\ world s = w0).
Proof.
  split; [reflexivity|]. split; [reflexivity|].
  split; [eexists; split; [reflexivity|reflexivity]|].
  split; [eexists; split; [reflexivity|reflexivity]|].
  intros t0 w0 acts s Hstart. split.
  - apply (never_crashes (newConfig []) t0); try discriminate.
    now apply (invariant_start _ t0 w0 acts).
  - unfold start in Hstart.
    apply run_world in Hstart; [exact Hstart | |];
      simpl; intros h Hh; injection Hh as <-; reflexivity.
Qed.

(** A crashed process takes no further step. *)
Lemma crashed_stuck (cfg : config W) (a : action) (s : state W) :
  crashed s = true -> step cfg a s = None.
Proof. unfold step. now intros ->. Qed.

Lemma nil_before_panics (cfg : config W) (t0 : Z) (s : state W) :
  invariant cfg t0 s ->
  beforeShutdown cfg = None ->
  cancelled s = true ->
  exists k s',
    (k <= 3)%nat /\
    run cfg (repeat AWatcher k) s = Some s' /\
    wpc s' = WPanic /\
    count is_shutdown_call (trace s') = 0%nat.
Proof.
  intros Hinv Hnil Hc.
  pose proof (inv_watcher cfg t0 s Hinv) as Hw.
  pose proof (early_not_crashed cfg t0 s Hinv) as Hcr.
  unfold watcher_inv in Hw. unfold crashed in Hcr.
  destruct s as [m w c n wd tr]; simpl in *. subst c.
  destruct w.
  4-7: exfalso; decompose [and] Hw; congruence.
  - assert (Hm : m <> MPanic).
    { intros ->. discriminate Hcr; [|congruence].
      apply (no_shutdown_return _ []); auto. }
    destruct m; try congruence;
      exists 3%nat; eexists; (split; [lia|]);
      (split; [cbn; rewrite Hnil; cbn; reflexivity|]); simpl;
      (split; [reflexivity|]);
      rewrite (count_watcher is_shutdown_call) by apply call_is_watcher;
      now rewrite Hw.
  - destruct Hw as (_ & Hw).
    assert (Hm : m <> MPanic).
    { intros ->. discriminate Hcr; [|congruence].
      apply (no_shutdown_return _ []); auto. }
    destruct m; try congruence;
      exists 2%nat; eexists; (split; [lia|]);
      (split; [cbn; rewrite Hnil; cbn; reflexivity|]); simpl;
      (split; [reflexivity|]);
      rewrite (count_watcher is_shutdown_call) by apply call_is_watcher;
      now rewrite Hw.
  - destruct Hw as (_ & _ & Hw).
    assert (Hm : m <> MPanic).
    { intros ->. discriminate Hcr; [|congruence].
      apply (no_shutdown_return _ []); auto. }
    destruct m; try congruence;
      exists 1%nat; eexists; (split; [lia|]);
      (split; [cbn; rewrite Hnil; cbn; reflexivity|]); simpl;
      (split; [reflexivity|]);
      rewrite (count_watcher is_shutdown_call) by apply call_is_watcher;
      now rewrite Hw.
  - destruct Hw as (_ & _ & Hw).
    exists 0%nat. eexists. split; [lia|]. split; [reflexivity|]. simpl.
    split; [reflexivity|].
    rewrite (count_watcher is_shutdown_call) by apply call_is_watcher.
    now rewrite Hw.
Qed.

(** C10. [BeforeShutdown(nil)] and [AfterShutdown(nil)] overwrite the
    defaults with nil.  With a nil before-hook, once the context is
    cancelled the watcher goroutine runs into the nil call of line 84
    within three steps, before [srv.Shutdown] is ever called.  With a
    nil after-hook, once the shutdown result is handed over the caller
    runs into the nil call of line 93 and [start] does not return.  A
    process that panicked takes no further step. *)
Theorem nil_hook_panics :
  (forall opts : list (Option W),
     beforeShutdown (newConfig (opts ++ [BeforeShutdown None])) = None) /\
  (forall opts : list (Option W),
     afterShutdown (newConfig (opts ++ [AfterShutdown None])) = None) /\
  (forall (cfg : config W) t0 w0 acts s,
     start cfg t0 w0 acts = Some s ->
     beforeShutdown cfg = None -> cancelled s = true ->
     exists k s',
       (k <= 3)%nat /\
       run cfg (repeat AWatcher k) s = Some s' /\
       wpc s' = WPanic /\ crashed s' = true /\
       count is_shutdown_call (trace s') = 0%nat /\
       forall a, step cfg a s' = None) /\
  (forall (cfg : config W) t0 w0 acts s v,
     start cfg t0 w0 acts = Some s ->
     afterShutdown cfg = None -> mpc s = MRecv -> wpc s = WSend v ->
     exists s',
       run cfg [AHandoff; AMain] s = Some s' /\
       mpc s' = MPanic /\ crashed s' = true /\ result s' = None /\
       forall a, step cfg a s' = None).
Proof.
  split; [|split; [|split]].
  - intros opts. now rewrite newConfig_snoc.
  - intros opts. now rewrite newConfig_snoc.
  - intros cfg t0 w0 acts s Hstart Hnil Hc.
    pose proof (invariant_start cfg t0 w0 acts s Hstart) as Hinv.
    destruct (nil_before_panics cfg t0 s Hinv Hnil Hc)
      as (k & s' & Hk & Hrun & Hpc & Hcount).
    assert (Hcr : crashed s' = true).
    { unfold crashed. rewrite Hpc. now destruct (mpc s'). }
    exists k, s'. repeat split; auto.
    intros a. now apply crashed_stuck.
  - intros cfg t0 w0 acts s v Hstart Hnil Hm Hw.
    destruct s as [m w c n wd tr]; simpl in *. subst m w.
    eexists. split; [cbn; rewrite Hnil; reflexivity|].
    repeat split.
Qed.

End Config.

(** ** More on traces *)

Lemma precedes_cons (a b x : event) (tr : list event) :
  precedes a b tr -> precedes a b (x :: tr).
Proof.
  intros (l1 & l2 & l3 & ->). now exists (x :: l1), l2, l3.
Qed.

(** Order among the selected events is order in the trace. *)
Lemma filter_precedes (p : event -> bool) (a b : event) :
  forall tr pre mid post,
    filter p tr = pre ++ a :: mid ++ b :: post -> precedes a b tr.
Proof.
  induction tr as [|x tr IH]; intros pre mid post Hf; simpl in Hf.
  - now destruct pre.
  - destruct (p x) eqn:Hpx.
    + destruct pre as [|y pre]; simpl in Hf.
      * injection Hf as -> Hf.
        assert (Hin : In b tr).
        { eapply filter_mem; [exact Hf|].
          apply in_or_app. right. now left. }
        apply in_split in Hin as (l1 & l2 & ->). now exists [], l1, l2.
      * injection Hf as _ Hf. apply precedes_cons. eauto.
    + apply precedes_cons. eauto.
Qed.

Lemma filter_sub (p q : event -> bool) (tr : list event) :
  (forall e, p e = true -> q e = true) ->
  filter p tr = filter p (filter q tr).
Proof.
  intros Hpq. induction tr as [|e tr IH]; simpl; [reflexivity|].
  destruct (q e) eqn:Hq, (p e) eqn:Hp; simpl; rewrite ?Hp; try congruence.
  apply Hpq in Hp. congruence.
Qed.

Lemma filter_none (p : event -> bool) (tr : list event) :
  (forall e, In e tr -> p e = false) -> filter p tr = [].
Proof.
  induction tr as [|e tr IH]; simpl; intros H; [reflexivity|].
  rewrite (H e) by now left. apply IH. intros e' He'. apply H. now right.
Qed.

Lemma before_is_hook (e : event) : is_before e = true -> is_hook_ev e = true.
Proof. unfold is_hook_ev. now intros ->. Qed.

Lemma after_is_hook (e : event) : is_after e = true -> is_hook_ev e = true.
Proof. unfold is_hook_ev. intros ->. apply orb_true_r. Qed.

(** ** Bookkeeping is kept *)

Section BookkeepingKept.

Context {W : Type}.
Variable cfg : config W.
Variable t0 : Z.
Variable w0 : W.

Lemma hook_world_snoc (tr : list event) (e : event) (w : W) :
  hook_world cfg (tr ++ [e]) w = hook_effect cfg e (hook_world cfg tr w).
Proof. unfold hook_world. now rewrite fold_left_app. Qed.

(** Only the hook events matter to the world. *)
Lemma hook_world_filter (tr : list event) (w : W) :
  hook_world cfg tr w = hook_world cfg (filter is_hook_ev tr) w.
Proof.
  unfold hook_world. revert w.
  induction tr as [|e tr IH]; intros w; simpl; [reflexivity|].
  destruct e; simpl; auto.
Qed.

Lemma handed_over_mono (s s' : state W) :
  mpc s' = mpc s ->
  (forall e, In e (trace s) -> In e (trace s')) ->
  handed_over s -> handed_over s'.
Proof.
  unfold handed_over. intros -> Hsub. destruct (mpc s); auto.
Qed.

(** A step that calls no hook keeps the last two items. *)
Lemma bookkeeping_quiet (s s' : state W) (e : event) :
  bookkeeping cfg w0 s ->
  world s' = world s ->
  trace s' = trace s ++ [e] ->
  is_hook_ev e = false ->
  world s' = hook_world cfg (trace s') w0 /\
  filter is_hook_ev (trace s') =
  filter is_before (trace s') ++ filter is_after (trace s').
Proof.
  intros [_ Hw Hh] -> -> He.
  unfold is_hook_ev in He. apply orb_false_iff in He as (Hb & Ha).
  rewrite hook_world_snoc, !filter_snoc. unfold is_hook_ev.
  rewrite Hb, Ha, !app_nil_r. split; [|assumption].
  rewrite Hw. destruct e; try discriminate; reflexivity.
Qed.

Lemma bookkeeping_init : bookkeeping cfg w0 (init t0 w0).
Proof. constructor; simpl; [discriminate | reflexivity | reflexivity]. Qed.

(** No after-hook call while the watcher has not entered Shutdown. *)
Lemma no_after_yet (s : state W) :
  invariant cfg t0 s ->
  (forall v, ~ In (EvShutdownReturn v) (trace s)) ->
  filter is_after (trace s) = [].
Proof.
  intros Hinv Hno. apply filter_none. intros e He.
  destruct e; try reflexivity. exfalso.
  apply (ord_after _ _ (inv_order cfg t0 s Hinv)), precedes_In in He.
  now apply (Hno err).
Qed.

Lemma bookkeeping_step (a : action) (s s' : state W) :
  invariant cfg t0 s -> bookkeeping cfg w0 s ->
  step cfg a s = Some s' -> bookkeeping cfg w0 s'.
Proof.
  intros Hinv Hbk Hstep. pose proof Hbk as [Hx Hw Hh].
  unfold step in Hstep. destruct (crashed s); [discriminate|].
  destruct a.
  - (* ACancel *)
    destruct (cancelled s); injection Hstep as <-; [assumption|].
    destruct (bookkeeping_quiet s
                (emit EvCancel
                   (mkState (mpc s) (wpc s) true (now s) (world s) (trace s)))
                EvCancel Hbk eq_refl eq_refl eq_refl) as (Hw' & Hh').
    constructor; [|assumption|assumption].
    intros Hpc. apply (handed_over_mono s); simpl; auto using in_snoc_l.
  - (* ATick *)
    injection Hstep as <-. constructor; [|assumption|assumption].
    intros Hpc. apply (handed_over_mono s); simpl; auto.
  - (* ARunReturn *)
    destruct (mpc s) eqn:Hpc; try discriminate. injection Hstep as <-.
    destruct (bookkeeping_quiet s (emit (EvRunReturn err) (set_mpc (MCheck err) s))
                (EvRunReturn err) Hbk eq_refl eq_refl eq_refl) as (Hw' & Hh').
    constructor; [|assumption|assumption].
    intros Hex. apply Hx in Hex. unfold handed_over in Hex.
    now rewrite Hpc in Hex.
  - (* AShutdownReturn *)
    destruct (wpc s) eqn:Hpc; try discriminate. injection Hstep as <-.
    destruct (bookkeeping_quiet s
                (emit (EvShutdownReturn err) (set_wpc (WSend err) s))
                (EvShutdownReturn err) Hbk eq_refl eq_refl eq_refl)
      as (Hw' & Hh').
    constructor; [|assumption|assumption]. discriminate.
  - (* AMain *)
    unfold step_main in Hstep.
    pose proof (inv_main cfg t0 s Hinv) as Hm. unfold main_inv in Hm.
    destruct (mpc s) eqn:Hpc; try discriminate.
    + (* line 88 *)
      assert (Hnot : wpc s <> WExit).
      { intros Hex. apply Hx in Hex. unfold handed_over in Hex.
        now rewrite Hpc in Hex. }
      destruct (run_failed err); injection Hstep as <-.
      * destruct (bookkeeping_quiet s
                    (emit (EvReturn err) (set_mpc (MDone err) s))
                    (EvReturn err) Hbk eq_refl eq_refl eq_refl) as (Hw' & Hh').
        constructor; [|assumption|assumption]. intros Hex. now apply Hnot in Hex.
      * constructor; [|assumption|assumption]. intros Hex. now apply Hnot in Hex.
    + (* line 93 *)
      destruct (afterShutdown cfg) eqn:Haft; injection Hstep as <-.
      * constructor; simpl.
        -- intros _. exact I.
        -- rewrite hook_world_snoc. simpl. now rewrite Haft, Hw.
        -- rewrite !filter_snoc. simpl. now rewrite Hh, app_nil_r, app_assoc.
      * constructor; [|assumption|assumption]. intros _. exact I.
    + (* line 94 *)
      destruct Hm as (r & _ & Hm & _). injection Hstep as <-.
      destruct (bookkeeping_quiet s
                  (emit (EvReturn err) (set_mpc (MDone err) s))
                  (EvReturn err) Hbk eq_refl eq_refl eq_refl) as (Hw' & Hh').
      constructor; [|assumption|assumption].
      intros _. unfold handed_over. simpl. apply in_snoc_l.
      eapply filter_mem; [exact Hm | right; now left].
  - (* AWatcher *)
    unfold step_watcher in Hstep.
    pose proof (inv_watcher cfg t0 s Hinv) as Hwi. unfold watcher_inv in Hwi.
    destruct (wpc s) eqn:Hpc; try discriminate.
    + destruct (cancelled s); [|discriminate]. injection Hstep as <-.
      constructor; [|assumption|assumption]. discriminate.
    + injection Hstep as <-.
      constructor; [|assumption|assumption]. discriminate.
    + (* line 84 *)
      destruct Hwi as (_ & _ & Hwi).
      destruct (beforeShutdown cfg) eqn:Hbef; injection Hstep as <-.
      * assert (Haf : filter is_after (trace s) = []).
        { apply no_after_yet; [assumption|].
          apply (no_shutdown_return _ []); auto. }
        constructor; simpl.
        -- discriminate.
        -- rewrite hook_world_snoc. simpl. now rewrite Hbef, Hw.
        -- rewrite !filter_snoc. simpl.
           now rewrite Hh, Haf, !app_nil_r.
      * constructor; [|assumption|assumption]. discriminate.
    + (* line 85 *)
      injection Hstep as <-.
      destruct (bookkeeping_quiet s
                  (emit (EvShutdownCall c) (set_wpc (WShutdown c) s))
                  (EvShutdownCall c) Hbk eq_refl eq_refl eq_refl) as (Hw' & Hh').
      constructor; [|assumption|assumption]. discriminate.
  - (* AHandoff *)
    destruct (wpc s) eqn:Hpc; try discriminate.
    destruct (mpc s) eqn:Hmpc; try discriminate.
    injection Hstep as <-.
    constructor; [|assumption|assumption]. intros _. exact I.
Qed.

Lemma bookkeeping_run (acts : list action) (s s' : state W) :
  invariant cfg t0 s -> bookkeeping cfg w0 s ->
  run cfg acts s = Some s' -> bookkeeping cfg w0 s'.
Proof.
  revert s. induction acts as [|a acts IH]; simpl; intros s Hinv Hbk Hrun.
  - now injection Hrun as <-.
  - destruct (step cfg a s) as [s1|] eqn:Hstep; [|discriminate].
    apply (IH s1); eauto using invariant_step, bookkeeping_step.
Qed.

Lemma bookkeeping_start (acts : list action) (s : state W) :
  start cfg t0 w0 acts = Some s -> bookkeeping cfg w0 s.
Proof.
  apply bookkeeping_run; [apply invariant_init | apply bookkeeping_init].
Qed.

End BookkeepingKept.

(** ** Options compose: the last of a kind wins *)

Section OptionOrder.

Context {W : Type}.

Lemma last_cons {A : Type} (x d : A) (l : list A) :
  last (x :: l) d = last l x.
Proof.
  revert x d. induction l as [|y l IH]; intros x d; [reflexivity|].
  change (last (x :: y :: l) d) with (last (y :: l) d).
  now rewrite !IH.
Qed.

Lemma fold_to_option (calls : list (option_call W)) (c0 : config W) :
  fold_left (fun cfg opt => opt cfg) (map to_option calls) c0 =
  mkConfig (last (before_hooks calls) (beforeShutdown c0))
           (last (after_hooks calls) (afterShutdown c0))
           (last (timeouts calls) (shutdownTimeout c0)).
Proof.
  revert c0. induction calls as [|c calls IH]; intros c0.
  - now destruct c0.
  - simpl map. simpl fold_left. rewrite IH.
    destruct c; unfold before_hooks, after_hooks, timeouts; cbn [flat_map app to_option WithShutdownTimeout BeforeShutdown AfterShutdown beforeShutdown afterShutdown shutdownTimeout]; now rewrite ?last_cons.
Qed.

(** X1. Whatever options are passed and in whatever order, each field
    of the config is the argument of the last option of its kind, or
    the default when there is none: 30 seconds, and hooks that do
    nothing. *)
Theorem newConfig_last_wins (calls : list (option_call W)) :
  shutdownTimeout (newConfig (map to_option calls)) =
    last (timeouts calls) (30 * Second) /\
  beforeShutdown (newConfig (map to_option calls)) =
    last (before_hooks calls) (Some (fun _ w => w)) /\
  afterShutdown (newConfig (map to_option calls)) =
    last (after_hooks calls) (Some (fun _ w => w)).
Proof.
  unfold newConfig. rewrite fold_to_option. repeat split.
Qed.

(** X2. Through each of the four entry points, the context
    [srv.Shutdown] gets is decided by the last [WithShutdownTimeout]
    among the options (30 seconds when there is none): no deadline when
    it is zero or negative, otherwise a clock reading of the run plus
    that duration. *)
Theorem entry_point_deadline
    (calls : list (option_call W)) (t0 : Z) (w0 : W)
    (acts : list action) (s : state W) (c : context) :
  ListenAndServe (map to_option calls) t0 w0 acts = Some s \/
  ListenAndServeTLS (map to_option calls) t0 w0 acts = Some s \/
  Serve (map to_option calls) t0 w0 acts = Some s \/
  ServeTLS (map to_option calls) t0 w0 acts = Some s ->
  In (EvShutdownCall c) (trace s) ->
  (last (timeouts calls) (30 * Second) <= 0 -> c = Background) /\
  (0 < last (timeouts calls) (30 * Second) ->
   exists t, t0 <= t <= now s /\
             c = WithDeadline (t + last (timeouts calls) (30 * Second))).
Proof.
  intros Hentry Hc.
  assert (Hstart : start (newConfig (map to_option calls)) t0 w0 acts = Some s)
    by (unfold ListenAndServe, ListenAndServeTLS, Serve, ServeTLS in Hentry;
        tauto).
  clear Hentry.
  pose proof (invariant_start _ t0 w0 acts s Hstart) as Hinv.
  destruct (inv_ctx _ t0 s Hinv c Hc) as (t & Ht & Hct).
  assert (Hd : shutdownTimeout (newConfig (map to_option calls)) =
               last (timeouts calls) (30 * Second))
    by (unfold newConfig; now rewrite fold_to_option).
  destruct (shutdown_ctx_cases _ c t Hct) as [(Hle & ->) | (Hlt & ->)];
    rewrite Hd in *.
  - split; [reflexivity | lia].
  - split; [lia|]. intros _. exists t. auto.
Qed.

End OptionOrder.

(** ** Driving a run to its end *)

Section Driving.

Context {W : Type}.

(** Line 88 falling through. *)
Lemma run_check (cfg : config W) (s : state W) (r : goerror)
    (rest : list action) :
  mpc s = MCheck r -> crashed s = false -> run_failed r = false ->
  run cfg (AMain :: rest) s = run cfg rest (set_mpc MRecv s).
Proof.
  intros Hpc Hcr Hr. simpl. unfold step, step_main.
  now rewrite Hcr, Hpc, Hr.
Qed.

(** From a state on the shutdown path [drive] is enabled to the end. *)
Lemma drive_completes (cfg : config W) (s : state W) (v0 : goerror)
    (f : Duration -> W -> W) (g : goerror -> W -> W) :
  beforeShutdown cfg = Some f ->
  afterShutdown cfg = Some g ->
  cancelled s = true ->
  (forall r, mpc s = MCheck r -> run_failed r = false) ->
  mpc s <> MRun -> mpc s <> MPanic -> wpc s <> WPanic ->
  (wpc s = WExit -> handed_over s) ->
  exists s' v,
    run cfg (drive s v0) s = Some s' /\
    result s' = Some v /\
    (v = v0 \/ wpc s = WSend v \/
     mpc s = MAfter v \/ mpc s = MRet v \/ mpc s = MDone v).
Proof.
  intros Hf Hg Hc Hr Hrun Hmp Hwp Hx.
  destruct cfg as [b a d]; simpl in Hf, Hg; subst b a.
  destruct s as [m w c n wd tr]; simpl in *; subst c.
  unfold handed_over in Hx; simpl in Hx.
  destruct m; try congruence.
  - (* MCheck *)
    specialize (Hr err eq_refl).
    destruct w; try congruence; try (exfalso; now apply Hx);
      cbv [drive watcher_part mpc wpc app finish];
      rewrite (run_check _ _ err) by (reflexivity || assumption);
      eexists; eexists; (split; [vm_compute; reflexivity|]);
      (split; [reflexivity|]); tauto.
  - (* MRecv *)
    destruct w; try congruence; try (exfalso; now apply Hx);
      eexists; eexists; (split; [vm_compute; reflexivity|]);
      (split; [reflexivity|]); tauto.
  - destruct w; try congruence;
      eexists; eexists; (split; [vm_compute; reflexivity|]);
      (split; [reflexivity|]); tauto.
  - destruct w; try congruence;
      eexists; eexists; (split; [vm_compute; reflexivity|]);
      (split; [reflexivity|]); tauto.
  - eexists. eexists. split; [reflexivity|]. split; [reflexivity|]. tauto.
Qed.

End Driving.

(** ** What a caller of [start] can rely on *)

Section Caller.

Context {W : Type}.
Variable cfg : config W.
Variable t0 : Z.
Variable w0 : W.

(** How the caller got to its return. *)
Lemma returned_how (s : state W) (v : goerror) :
  invariant cfg t0 s -> result s = Some v ->
  (run_failed v = true /\
   filter is_main_ev (trace s) = [EvRunReturn v; EvReturn v]) \/
  (exists r, run_failed r = false /\
     filter is_main_ev (trace s) = [EvRunReturn r; EvAfter v; EvReturn v] /\
     In (EvShutdownReturn v) (trace s) /\ afterShutdown cfg <> None).
Proof.
  intros Hinv Hres. pose proof (inv_main cfg t0 s Hinv) as Hm.
  unfold main_inv in Hm. unfold result in Hres.
  destruct (mpc s); try discriminate. injection Hres as ->. exact Hm.
Qed.

Lemma cancelled_of_shutdown (s : state W) (v : goerror) :
  invariant cfg t0 s -> In (EvShutdownReturn v) (trace s) ->
  cancelled s = true.
Proof.
  intros Hinv Hv.
  apply (ord_cancel _ _ (inv_order cfg t0 s Hinv)) in Hv; [|reflexivity].
  apply precedes_In in Hv as (Hc & _).
  pose proof (inv_cancel cfg t0 s Hinv) as Hcan.
  destruct (cancelled s); [reflexivity|].
  apply (filter_all _ _ _ _ Hcan) in Hc; [contradiction | reflexivity].
Qed.

(** X4. [start] returns only after [runFunc] has returned, and returns
    once; if [runFunc] failed, what [start] returns is that failure. *)
Theorem returns_after_runFunc
    (acts : list action) (s : state W) (v : goerror) :
  start cfg t0 w0 acts = Some s ->
  result s = Some v ->
  count is_return (trace s) = 1%nat /\
  exists r, precedes (EvRunReturn r) (EvReturn v) (trace s) /\
            (run_failed r = true -> v = r).
Proof.
  intros Hstart Hres.
  pose proof (invariant_start cfg t0 w0 acts s Hstart) as Hinv.
  rewrite (count_main is_return) by apply return_is_main.
  destruct (returned_how s v Hinv Hres) as [(Hv & Hm) | (r & Hr & Hm & _)];
    rewrite Hm.
  - split; [reflexivity|]. exists v. split; [|reflexivity].
    now apply (filter_precedes is_main_ev _ _ _ [] [] []).
  - split; [reflexivity|]. exists r. split; [|congruence].
    now apply (filter_precedes is_main_ev _ _ _ [] [EvAfter v] []).
Qed.

(** X5. What [start] returns is either [runFunc]'s own failure or the
    value [srv.Shutdown] returned after the context was cancelled.  In
    particular a nil return means: cancelled, and shut down without
    error. *)
Theorem result_origin
    (acts : list action) (s : state W) (v : goerror) :
  start cfg t0 w0 acts = Some s ->
  result s = Some v ->
  ((run_failed v = true /\ In (EvRunReturn v) (trace s)) \/
   (cancelled s = true /\ In (EvShutdownReturn v) (trace s))) /\
  (v = None ->
   cancelled s = true /\ In (EvShutdownReturn None) (trace s)).
Proof.
  intros Hstart Hres.
  pose proof (invariant_start cfg t0 w0 acts s Hstart) as Hinv.
  destruct (returned_how s v Hinv Hres)
    as [(Hv & Hm) | (r & Hr & Hm & Hsr & _)].
  - split.
    + left. split; [assumption|].
      eapply filter_mem; [exact Hm | now left].
    + intros ->. discriminate Hv.
  - pose proof (cancelled_of_shutdown s v Hinv Hsr) as Hc. split.
    + right. auto.
    + intros ->. auto.
Qed.

(** X6. If [runFunc] returns nil or the closed sentinel while the
    context is not cancelled (the server was closed by other means),
    [start] does not return: the caller reaches the receive of line 92
    and there nothing can move but the clock, until the context is
    cancelled. *)
Theorem blocked_until_cancelled
    (acts : list action) (s : state W) (r : goerror) :
  start cfg t0 w0 acts = Some s ->
  cancelled s = false ->
  In (EvRunReturn r) (trace s) ->
  run_failed r = false ->
  result s = None /\
  (mpc s = MCheck r \/ mpc s = MRecv) /\
  (mpc s = MRecv ->
   forall a s', step cfg a s = Some s' ->
                a = ACancel \/ exists dt, a = ATick dt).
Proof.
  intros Hstart Hc Hin Hr.
  pose proof (invariant_start cfg t0 w0 acts s Hstart) as Hinv.
  pose proof (watcher_idle cfg t0 s Hinv Hc) as Hw.
  assert (Hno : forall v, ~ In (EvShutdownReturn v) (trace s)).
  { intros v Hv. apply (cancelled_of_shutdown s v Hinv) in Hv. congruence. }
  pose proof (inv_main cfg t0 s Hinv) as Hm. unfold main_inv in Hm.
  assert (Hpc : mpc s = MCheck r \/ mpc s = MRecv).
  { destruct (mpc s).
    - apply (filter_all _ _ _ _ Hm) in Hin; [contradiction | reflexivity].
    - left. f_equal. symmetry.
      apply (run_return_unique s err r []); simpl; auto.
    - now right.
    - destruct Hm as (_ & _ & _ & Hv). now apply Hno in Hv.
    - destruct Hm as (_ & _ & _ & Hv & _). now apply Hno in Hv.
    - destruct Hm as [(Hv & Hm) | (_ & _ & _ & Hv & _)].
      + assert (r = err).
        { apply (run_return_unique s err r [EvReturn err]); simpl; auto.
          intros [Heq|[]]; discriminate. }
        congruence.
      + now apply Hno in Hv.
    - destruct Hm as (_ & _ & _ & (v & Hv) & _). now apply Hno in Hv. }
  split; [|split; [exact Hpc|]].
  - unfold result. destruct Hpc as [-> | ->]; reflexivity.
  - intros Hrecv a s' Hstep.
    unfold step, step_main, step_watcher in Hstep.
    rewrite Hrecv, Hw, Hc in Hstep.
    destruct (crashed s); [discriminate|].
    destruct a; try discriminate; eauto.
Qed.

(** X7. After [start] has returned [runFunc]'s failure, nobody receives
    from [errc]: the spawned goroutine never finishes.  It stays blocked
    on [ctx.Done()] or, once cancelled, does its work and then blocks on
    the send of line 85 for good; the after-hook is never called. *)
Theorem watcher_never_exits
    (acts : list action) (s : state W) (r : goerror) :
  start cfg t0 w0 acts = Some s ->
  In (EvRunReturn r) (trace s) ->
  run_failed r = true ->
  wpc s <> WExit /\
  step cfg AHandoff s = None /\
  count is_after (trace s) = 0%nat.
Proof.
  intros Hstart Hin Hr.
  pose proof (invariant_start cfg t0 w0 acts s Hstart) as Hinv.
  pose proof (bookkeeping_start cfg t0 w0 acts s Hstart) as Hbk.
  pose proof (inv_main cfg t0 s Hinv) as Hm. unfold main_inv in Hm.
  rewrite (count_main is_after) by apply after_is_main.
  destruct (run_return_failed cfg t0 s r Hinv Hin Hr) as [Hpc | Hpc];
    rewrite Hpc in Hm.
  - split; [|split].
    + intros Hex. apply (bk_exit cfg w0 s Hbk) in Hex.
      unfold handed_over in Hex. now rewrite Hpc in Hex.
    + unfold step. rewrite Hpc.
      destruct (crashed s); [reflexivity|]. now destruct (wpc s).
    + now rewrite Hm.
  - assert (Hm' : filter is_main_ev (trace s) = [EvRunReturn r; EvReturn r]).
    { destruct Hm as [(_ & Hm) | (r0 & Hr0 & Hm & _)]; [assumption|].
      apply (filter_all _ _ _ _ Hm) in Hin; [|reflexivity].
      destruct Hin as [Heq|[Heq|[Heq|[]]]]; try discriminate. congruence. }
    split; [|split].
    + intros Hex. apply (bk_exit cfg w0 s Hbk) in Hex.
      unfold handed_over in Hex. rewrite Hpc in Hex.
      apply (filter_all _ _ _ _ Hm') in Hex; [|reflexivity].
      destruct Hex as [Heq|[Heq|[]]]; discriminate.
    + unfold step. rewrite Hpc.
      destruct (crashed s); [reflexivity|]. now destruct (wpc s).
    + now rewrite Hm'.
Qed.

(** X8. While the context is not cancelled no hook has been called and
    the world is as it was at the start. *)
Theorem no_hook_before_cancel
    (acts : list action) (s : state W) :
  start cfg t0 w0 acts = Some s ->
  cancelled s = false ->
  count is_before (trace s) = 0%nat /\
  count is_after (trace s) = 0%nat /\
  world s = w0.
Proof.
  intros Hstart Hc.
  pose proof (invariant_start cfg t0 w0 acts s Hstart) as Hinv.
  pose proof (bookkeeping_start cfg t0 w0 acts s Hstart) as Hbk.
  pose proof (watcher_idle cfg t0 s Hinv Hc) as Hw.
  pose proof (inv_watcher cfg t0 s Hinv) as Hwi. unfold watcher_inv in Hwi.
  rewrite Hw in Hwi.
  assert (Hb : filter is_before (trace s) = []).
  { rewrite (filter_sub is_before is_watcher_ev) by apply before_is_watcher.
    now rewrite Hwi. }
  assert (Ha : filter is_after (trace s) = []).
  { apply (no_after_yet cfg t0); [assumption|].
    apply (no_shutdown_return _ []); auto. }
  unfold count. rewrite Hb, Ha. repeat split.
  rewrite (bk_world cfg w0 s Hbk), hook_world_filter.
  now rewrite (bk_hooks cfg w0 s Hbk), Hb, Ha.
Qed.

(** X9. When [start] has returned through lines 92-94, both hooks were
    functions, the before-hook was called before the after-hook, and
    what they did to the world is all that happened to it: first the
    before-hook with the timeout, then the after-hook with the value
    returned. *)
Theorem hooks_in_order
    (acts : list action) (s : state W) (r v : goerror) :
  start cfg t0 w0 acts = Some s ->
  In (EvRunReturn r) (trace s) ->
  run_failed r = false ->
  result s = Some v ->
  precedes (EvBefore (shutdownTimeout cfg)) (EvAfter v) (trace s) /\
  exists f g,
    beforeShutdown cfg = Some f /\ afterShutdown cfg = Some g /\
    world s = g v (f (shutdownTimeout cfg) w0).
Proof.
  intros Hstart Hin Hr Hres.
  pose proof (invariant_start cfg t0 w0 acts s Hstart) as Hinv.
  pose proof (bookkeeping_start cfg t0 w0 acts s Hstart) as Hbk.
  destruct (run_return_soft cfg t0 s r Hinv Hin Hr v Hres)
    as (Hm & Hsr & Hg).
  assert (Ha : filter is_after (trace s) = [EvAfter v]).
  { rewrite (filter_sub is_after is_main_ev) by apply after_is_main.
    now rewrite Hm. }
  assert (Hb : filter is_before (trace s) = [EvBefore (shutdownTimeout cfg)]
               /\ beforeShutdown cfg <> None).
  { rewrite (filter_sub is_before is_watcher_ev) by apply before_is_watcher.
    pose proof (inv_watcher cfg t0 s Hinv) as Hw. unfold watcher_inv in Hw.
    destruct (wpc s).
    - apply (filter_all _ _ _ _ Hw) in Hsr; [contradiction | reflexivity].
    - destruct Hw as (_ & Hw).
      apply (filter_all _ _ _ _ Hw) in Hsr; [contradiction | reflexivity].
    - destruct Hw as (_ & _ & Hw).
      apply (filter_all _ _ _ _ Hw) in Hsr; [contradiction | reflexivity].
    - destruct Hw as (_ & _ & Hw & Hn). now rewrite Hw.
    - destruct Hw as (_ & Hw & Hn). now rewrite Hw.
    - destruct Hw as (_ & (c & Hw) & Hn). now rewrite Hw.
    - destruct Hw as (_ & (c & v1 & Hw) & Hn). now rewrite Hw.
    - destruct Hw as (_ & _ & Hw).
      apply (filter_all _ _ _ _ Hw) in Hsr; [contradiction | reflexivity]. }
  destruct Hb as (Hb & Hf).
  pose proof (bk_hooks cfg w0 s Hbk) as Hh. rewrite Hb, Ha in Hh.
  split.
  - now apply (filter_precedes is_hook_ev _ _ _ [] [] []).
  - destruct (beforeShutdown cfg) as [f|] eqn:Hbf; [|congruence].
    destruct (afterShutdown cfg) as [g|] eqn:Haf; [|congruence].
    exists f, g. repeat split.
    rewrite (bk_world cfg w0 s Hbk), hook_world_filter, Hh.
    unfold hook_world. simpl. now rewrite Hbf, Haf.
Qed.

(** X11. The shutdown path cannot get stuck on [start]'s account.  From
    any state of a run in which the context is cancelled, [runFunc] has
    returned nil or the closed sentinel, and both hooks are set, the
    schedule [drive] (the watcher up to its send, with Shutdown
    returning [v0] if it has not returned yet, then the caller) is
    enabled step by step and ends with [start] returning Shutdown's
    value. *)
Theorem start_can_complete
    (acts : list action) (s : state W) (r v0 : goerror)
    (f : Duration -> W -> W) (g : goerror -> W -> W) :
  start cfg t0 w0 acts = Some s ->
  cancelled s = true ->
  In (EvRunReturn r) (trace s) ->
  run_failed r = false ->
  beforeShutdown cfg = Some f ->
  afterShutdown cfg = Some g ->
  exists s' v,
    run cfg (drive s v0) s = Some s' /\
    result s' = Some v /\
    (v = v0 \/ In (EvShutdownReturn v) (trace s)).
Proof.
  intros Hstart Hc Hin Hr Hf Hg.
  pose proof (invariant_start cfg t0 w0 acts s Hstart) as Hinv.
  pose proof (bookkeeping_start cfg t0 w0 acts s Hstart) as Hbk.
  pose proof (inv_main cfg t0 s Hinv) as Hm.
  pose proof (inv_watcher cfg t0 s Hinv) as Hw.
  unfold main_inv in Hm. unfold watcher_inv in Hw.
  destruct (drive_completes cfg s v0 f g Hf Hg Hc)
    as (s' & v & Hrun & Hres & Hv).
  - intros r' Hpc. rewrite Hpc in Hm.
    assert (r = r') by (apply (run_return_unique s r' r []); simpl; auto).
    congruence.
  - intros Hpc. rewrite Hpc in Hm.
    apply (filter_all _ _ _ _ Hm) in Hin; [contradiction | reflexivity].
  - intros Hpc. rewrite Hpc in Hm.
    destruct Hm as (_ & _ & _ & _ & Hnil). congruence.
  - intros Hpc. rewrite Hpc in Hw.
    destruct Hw as (_ & Hnil & _). congruence.
  - exact (bk_exit cfg w0 s Hbk).
  - exists s', v. split; [assumption|]. split; [assumption|].
    destruct Hv as [Hv | [Hv | [Hv | [Hv | Hv]]]]; [now left | right ..].
    + rewrite Hv in Hw. destruct Hw as (_ & (c & Hw) & _).
      eapply filter_mem; [exact Hw | right; right; now left].
    + rewrite Hv in Hm. now destruct Hm as (_ & _ & _ & Hsr).
    + rewrite Hv in Hm. now destruct Hm as (_ & _ & _ & Hsr & _).
    + rewrite Hv in Hm.
      destruct Hm as [(Hfail & Hm) | (_ & _ & _ & Hsr & _)]; [|assumption].
      exfalso.
      assert (r = v).
      { apply (run_return_unique s v r [EvReturn v]); simpl; auto.
        intros [Heq|[]]; discriminate. }
      congruence.
Qed.

End Caller.

(** ** Where the shutdown context comes from *)

Section Reading.

Context {W : Type}.
Variable cfg : config W.
Variable t0 : Z.
Variable w0 : W.

Lemma run_app (l1 l2 : list action) (s : state W) :
  run cfg (l1 ++ l2) s =
  match run cfg l1 s with
  | Some s1 => run cfg l2 s1
  | None => None
  end.
Proof.
  revert s. induction l1 as [|a l1 IH]; intros s; simpl; [reflexivity|].
  destruct (step cfg a s); [apply IH | reflexivity].
Qed.

(** A context the watcher holds was held before the step, or the step
    is the one of lines 77-82 and computed it there. *)
Lemma holds_ctx_back (a : action) (s s' : state W) (c : context) :
  step cfg a s = Some s' ->
  holds_ctx c s' ->
  holds_ctx c s \/
  (a = AWatcher /\ wpc s = WTimeout /\ c = shutdown_ctx cfg (now s)).
Proof.
  unfold step, step_main, step_watcher, holds_ctx. intros Hstep Hc.
  destruct (crashed s); [discriminate|].
  destruct a;
    repeat match type of Hstep with
      | context [match ?x with _ => _ end] =>
          destruct x eqn:?; try discriminate
      end;
    injection Hstep as <-; simpl in Hc;
    repeat match goal with
      | H : In _ (_ ++ [_]) |- _ =>
          apply in_app_or in H; destruct H as [H | [H | []]];
          try discriminate H
      | H : _ \/ _ |- _ => destruct H
      | H : _ = _ |- _ => discriminate H
      end;
    try (left; tauto);
    try match goal with
      | H : WBefore _ = WBefore _ |- _ => injection H as <-
      | H : WCall _ = WCall _ |- _ => injection H as <-
      | H : WShutdown _ = WShutdown _ |- _ => injection H as <-
      | H : EvShutdownCall _ = EvShutdownCall _ |- _ => injection H as <-
      end;
    try (left; tauto);
    try (right; auto; fail).
Qed.

(** Every context the watcher holds was computed by lines 77-82 at one
    point of the run, after the cancellation, from the clock as it read
    then. *)
Lemma ctx_reading (acts : list action) :
  forall s c,
    start cfg t0 w0 acts = Some s ->
    holds_ctx c s ->
    exists acts1 acts2 s1,
      acts = acts1 ++ AWatcher :: acts2 /\
      start cfg t0 w0 acts1 = Some s1 /\
      wpc s1 = WTimeout /\ cancelled s1 = true /\
      c = shutdown_ctx cfg (now s1).
Proof.
  induction acts as [|a acts IH] using rev_ind; intros s c Hstart Hc.
  - injection Hstart as <-. unfold holds_ctx in Hc. simpl in Hc.
    intuition discriminate.
  - unfold start in Hstart. rewrite run_app in Hstart.
    destruct (run cfg acts (init t0 w0)) as [s0|] eqn:Hs0; [|discriminate].
    simpl in Hstart.
    destruct (step cfg a s0) as [s1|] eqn:Hstep; [|discriminate].
    injection Hstart as <-.
    destruct (holds_ctx_back a s0 s1 c Hstep Hc) as [Hold | (-> & Hpc & ->)].
    + destruct (IH s0 c Hs0 Hold) as (acts1 & acts2 & s' & -> & H1 & H2 & H3 & H4).
      exists acts1, (acts2 ++ [a]), s'. rewrite <- app_assoc. simpl. auto.
    + exists acts, [], s0. repeat split; auto.
      pose proof (inv_watcher cfg t0 s0 (invariant_start cfg t0 w0 acts s0 Hs0))
        as Hw.
      unfold watcher_inv in Hw. rewrite Hpc in Hw. tauto.
Qed.

End Reading.

(** ** The hooks and the shutdown branch *)

Section Branch.

Context {W : Type}.
Variable cfg : config W.
Variable t0 : Z.
Variable w0 : W.

Lemma before_events (s : state W) :
  invariant cfg t0 s ->
  filter is_before (trace s) = [] \/
  filter is_before (trace s) = [EvBefore (shutdownTimeout cfg)].
Proof.
  intros Hinv.
  rewrite (filter_sub is_before is_watcher_ev) by apply before_is_watcher.
  destruct (watcher_events cfg t0 s Hinv)
    as [He | [He | [(c & He) | (c & v & He)]]]; rewrite He; auto.
Qed.

Lemma count_zero (p : event -> bool) (tr : list event) :
  count p tr = 0%nat -> filter p tr = [].
Proof. unfold count. apply length_zero_iff_nil. Qed.

(** The world between the two hooks. *)
Lemma world_between (acts : list action) (s : state W)
    (f : Duration -> W -> W) :
  start cfg t0 w0 acts = Some s ->
  beforeShutdown cfg = Some f ->
  count is_after (trace s) = 0%nat ->
  (count is_before (trace s) = 0%nat -> world s = w0) /\
  (count is_before (trace s) = 1%nat ->
   world s = f (shutdownTimeout cfg) w0).
Proof.
  intros Hstart Hf Ha.
  pose proof (invariant_start cfg t0 w0 acts s Hstart) as Hinv.
  pose proof (bookkeeping_start cfg t0 w0 acts s Hstart) as Hbk.
  apply count_zero in Ha.
  rewrite (bk_world cfg w0 s Hbk), hook_world_filter, (bk_hooks cfg w0 s Hbk).
  rewrite Ha, app_nil_r. unfold count.
  destruct (before_events s Hinv) as [Hb | Hb]; rewrite Hb; simpl.
  - split; [reflexivity | discriminate].
  - split; [discriminate|]. intros _. unfold hook_world. simpl.
    now rewrite Hf.
Qed.

(** The world once [start] has returned through lines 92-94. *)
Lemma world_returned (acts : list action) (s : state W) (r v : goerror) :
  start cfg t0 w0 acts = Some s ->
  In (EvRunReturn r) (trace s) ->
  run_failed r = false ->
  result s = Some v ->
  filter is_after (trace s) = [EvAfter v] /\
  exists f g,
    beforeShutdown cfg = Some f /\ afterShutdown cfg = Some g /\
    world s = g v (f (shutdownTimeout cfg) w0).
Proof.
  intros Hstart Hin Hr Hres.
  pose proof (invariant_start cfg t0 w0 acts s Hstart) as Hinv.
  pose proof (bookkeeping_start cfg t0 w0 acts s Hstart) as Hbk.
  destruct (run_return_soft cfg t0 s r Hinv Hin Hr v Hres)
    as (Hm & Hsr & Hg).
  assert (Ha : filter is_after (trace s) = [EvAfter v]).
  { rewrite (filter_sub is_after is_main_ev) by apply after_is_main.
    now rewrite Hm. }
  split; [exact Ha|].
  assert (Hb : filter is_before (trace s) = [EvBefore (shutdownTimeout cfg)]
               /\ beforeShutdown cfg <> None).
  { rewrite (filter_sub is_before is_watcher_ev) by apply before_is_watcher.
    pose proof (inv_watcher cfg t0 s Hinv) as Hw. unfold watcher_inv in Hw.
    destruct (wpc s).
    - apply (filter_all _ _ _ _ Hw) in Hsr; [contradiction | reflexivity].
    - destruct Hw as (_ & Hw).
      apply (filter_all _ _ _ _ Hw) in Hsr; [contradiction | reflexivity].
    - destruct Hw as (_ & _ & Hw).
      apply (filter_all _ _ _ _ Hw) in Hsr; [contradiction | reflexivity].
    - destruct Hw as (_ & _ & Hw & Hn). now rewrite Hw.
    - destruct Hw as (_ & Hw & Hn). now rewrite Hw.
    - destruct Hw as (_ & (c & Hw) & Hn). now rewrite Hw.
    - destruct Hw as (_ & (c & v1 & Hw) & Hn). now rewrite Hw.
    - destruct Hw as (_ & _ & Hw).
      apply (filter_all _ _ _ _ Hw) in Hsr; [contradiction | reflexivity]. }
  destruct Hb as (Hb & Hf).
  destruct (beforeShutdown cfg) as [f|] eqn:Hbf; [|congruence].
  destruct (afterShutdown cfg) as [g|] eqn:Haf; [|congruence].
  exists f, g. repeat split.
  rewrite (bk_world cfg w0 s Hbk), hook_world_filter, (bk_hooks cfg w0 s Hbk).
  rewrite Hb, Ha. unfold hook_world. simpl. now rewrite Hbf, Haf.
Qed.

(** The caller goes on to line 92 when [runFunc]'s result is nil or
    closed. *)
Lemma check_falls_through (s : state W) (r : goerror) :
  mpc s = MCheck r -> crashed s = false -> run_failed r = false ->
  step cfg AMain s = Some (set_mpc MRecv s).
Proof.
  intros Hpc Hcr Hr. unfold step, step_main. now rewrite Hcr, Hpc, Hr.
Qed.

(** Cancel (if not yet cancelled) and drive: [start] returns what
    [srv.Shutdown] returns. *)
Lemma cancel_and_drive (acts : list action) (s : state W) (r v0 : goerror)
    (f : Duration -> W -> W) (g : goerror -> W -> W) :
  start cfg t0 w0 acts = Some s ->
  In (EvRunReturn r) (trace s) ->
  run_failed r = false ->
  beforeShutdown cfg = Some f ->
  afterShutdown cfg = Some g ->
  exists s' v,
    run cfg (ACancel :: drive s v0) s = Some s' /\
    result s' = Some v /\
    (v = v0 \/ In (EvShutdownReturn v) (trace s)) /\
    In (EvShutdownReturn v) (trace s').
Proof.
  intros Hstart Hin Hr Hf Hg.
  pose proof (invariant_start cfg t0 w0 acts s Hstart) as Hinv.
  assert (Hcr : crashed s = false)
    by (apply (never_crashes cfg t0); congruence).
  assert (Hstep : exists s1,
             step cfg ACancel s = Some s1 /\ cancelled s1 = true /\
             mpc s1 = mpc s /\ wpc s1 = wpc s /\
             (forall e, In e (trace s) -> In e (trace s1)) /\
             (forall v, In (EvShutdownReturn v) (trace s1) ->
                        In (EvShutdownReturn v) (trace s))).
  { unfold step. rewrite Hcr. destruct (cancelled s) eqn:Hc.
    - exists s. auto 10.
    - eexists. split; [reflexivity|]. simpl. repeat split; auto using in_snoc_l.
      intros v Hv. apply in_app_or in Hv as [Hv|[Hv|[]]]; [assumption|].
      discriminate. }
  destruct Hstep as (s1 & Hstep & Hc1 & Hm1 & Hw1 & Hsub & Hback).
  assert (Hstart1 : start cfg t0 w0 (acts ++ [ACancel]) = Some s1).
  { unfold start in *. rewrite run_app, Hstart. simpl. now rewrite Hstep. }
  pose proof (invariant_start cfg t0 w0 _ s1 Hstart1) as Hinv1.
  pose proof (bookkeeping_start cfg t0 w0 _ s1 Hstart1) as Hbk1.
  pose proof (inv_main cfg t0 s1 Hinv1) as Hm.
  pose proof (inv_watcher cfg t0 s1 Hinv1) as Hw.
  unfold main_inv in Hm. unfold watcher_inv in Hw.
  assert (Hin1 : In (EvRunReturn r) (trace s1)) by auto.
  assert (Hdrive : drive s v0 = drive s1 v0).
  { unfold drive, watcher_part. now rewrite Hm1, Hw1. }
  destruct (drive_completes cfg s1 v0 f g Hf Hg Hc1)
    as (s' & v & Hrun & Hres & Hv).
  - intros r' Hpc. rewrite Hpc in Hm.
    assert (r = r') by (apply (run_return_unique s1 r' r []); simpl; auto).
    congruence.
  - intros Hpc. rewrite Hpc in Hm.
    apply (filter_all _ _ _ _ Hm) in Hin1; [contradiction | reflexivity].
  - intros Hpc. rewrite Hpc in Hm.
    destruct Hm as (_ & _ & _ & _ & Hnil). congruence.
  - intros Hpc. rewrite Hpc in Hw.
    destruct Hw as (_ & Hnil & _). congruence.
  - exact (bk_exit cfg w0 s1 Hbk1).
  - exists s', v. simpl. rewrite Hstep, Hdrive.
    split; [assumption|]. split; [assumption|].
    assert (Hdone : start cfg t0 w0 ((acts ++ [ACancel]) ++ drive s1 v0)
                    = Some s').
    { unfold start in *. now rewrite run_app, Hstart1. }
    pose proof (invariant_start cfg t0 w0 _ s' Hdone) as Hinv'.
    assert (Hin' : In (EvRunReturn r) (trace s')).
    { clear - Hrun Hin1. revert Hrun Hin1. generalize (drive s1 v0) as l.
      intros l. revert s1. induction l as [|a l IH]; simpl; intros s1 Hrun Hin1.
      - now injection Hrun as <-.
      - destruct (step cfg a s1) as [s2|] eqn:Hs2; [|discriminate].
        apply (IH s2 Hrun).
        unfold step, step_main, step_watcher in Hs2.
        destruct (crashed s1); [discriminate|].
        destruct a;
          repeat match type of Hs2 with
            | context [match ?x with _ => _ end] =>
                destruct x eqn:?; try discriminate
            end;
          injection Hs2 as <-; simpl; auto using in_snoc_l. }
    destruct (run_return_soft cfg t0 s' r Hinv' Hin' Hr v Hres)
      as (_ & Hsr' & _).
    split; [|exact Hsr'].
    destruct Hv as [Hv | [Hv | [Hv | [Hv | Hv]]]]; [now left | right ..];
      apply Hback.
    + rewrite Hv in Hw. destruct Hw as (_ & (c & Hw) & _).
      eapply filter_mem; [exact Hw | right; right; now left].
    + rewrite Hv in Hm. now destruct Hm as (_ & _ & _ & Hsr).
    + rewrite Hv in Hm. now destruct Hm as (_ & _ & _ & Hsr & _).
    + rewrite Hv in Hm.
      destruct Hm as [(Hfail & Hm) | (_ & _ & _ & Hsr & _)]; [|assumption].
      exfalso.
      assert (r = v).
      { apply (run_return_unique s1 v r [EvReturn v]); simpl; auto.
        intros [Heq|[]]; discriminate. }
      congruence.
Qed.

(** C2. When [runFunc] returns nil or an error matching
    [http.ErrServerClosed], [start] does not return on account of it:
    the test of line 88 sends the caller on to the receive of line 92;
    as long as [srv.Shutdown] has not returned, neither has [start]; and
    whatever [start] returns is the one value [srv.Shutdown] returned,
    produced before the return.  And [start] does return it: once the
    watcher offers [v] on [errc] the caller receives it and returns
    [v]; and from every state of such a run, with both hooks set,
    cancelling the context (if it is not yet) and letting the two
    goroutines run, Shutdown returning [v0] if it has not returned,
    ends with [start] returning the value Shutdown returned. *)
Theorem closed_sentinel_is_suppressed
    (acts : list action) (s : state W) (r : goerror) :
  start cfg t0 w0 acts = Some s ->
  In (EvRunReturn r) (trace s) ->
  r = None \/ (exists e, r = Some e /\ errors_Is e ErrServerClosed = true) ->
  (count is_shutdown_return (trace s) = 0%nat -> result s = None) /\
  (forall v, result s = Some v ->
     precedes (EvShutdownReturn v) (EvReturn v) (trace s) /\
     forall v', In (EvShutdownReturn v') (trace s) -> v' = v) /\
  (mpc s = MCheck r -> crashed s = false ->
   step cfg AMain s = Some (set_mpc MRecv s)) /\
  (forall v g, mpc s = MRecv -> wpc s = WSend v ->
     afterShutdown cfg = Some g ->
     exists s', run cfg finish s = Some s' /\ result s' = Some v) /\
  (forall f g v0,
     beforeShutdown cfg = Some f -> afterShutdown cfg = Some g ->
     exists s' v,
       run cfg (ACancel :: drive s v0) s = Some s' /\
       result s' = Some v /\
       (v = v0 \/ In (EvShutdownReturn v) (trace s)) /\
       In (EvShutdownReturn v) (trace s')).
Proof.
  intros Hstart Hin Hr. apply run_failed_false in Hr.
  pose proof (invariant_start cfg t0 w0 acts s Hstart) as Hinv.
  assert (Hres : forall v, result s = Some v ->
            precedes (EvShutdownReturn v) (EvReturn v) (trace s) /\
            forall v', In (EvShutdownReturn v') (trace s) -> v' = v).
  { intros v Hv.
    destruct (run_return_soft cfg t0 s r Hinv Hin Hr v Hv) as (Hm & Hsr & _).
    split.
    - apply (ord_result _ _ (inv_order cfg t0 s Hinv)).
      + eapply filter_mem; [exact Hm | right; now left].
      + eapply filter_mem; [exact Hm | right; right; now left].
    - intros v' Hv'. now apply (shutdown_result_unique cfg t0 s v v' Hinv). }
  split; [|split; [exact Hres | split; [|split]]].
  - intros Hcount. destruct (result s) as [v|] eqn:Hv; [|reflexivity].
    exfalso. destruct (Hres v eq_refl) as (Hp & _).
    apply precedes_In in Hp as (Hsr & _).
    apply count_zero in Hcount.
    assert (Hf : In (EvShutdownReturn v) (filter is_shutdown_return (trace s)))
      by now apply filter_In.
    now rewrite Hcount in Hf.
  - intros Hpc Hcr. now apply (check_falls_through s r).
  - intros v g Hm Hw Hg.
    unfold finish, run, step, crashed, step_main; simpl.
    rewrite Hm, Hw; simpl. rewrite Hg; simpl.
    eexists. split; reflexivity.
  - intros f g v0 Hf Hg. now apply (cancel_and_drive acts s r v0 f g).
Qed.

(** C4, as the code has it.  [cfg.afterShutdown] is called at most once
    in a run, and the world is what the recorded hook calls make of it.
    When [runFunc] has failed the hook is never called, and [start]
    returns nothing but that failure.  When [runFunc] returned nil or
    the closed sentinel and [start] has returned [v], the hook was
    called exactly once, with [v], before the return, and the world is
    the after-hook applied to [v] on top of the before-hook.  The hook
    is only called with what [srv.Shutdown] returned, so with nil when
    Shutdown succeeded. *)
Theorem after_hook_at_most_once
    (acts : list action) (s : state W) :
  start cfg t0 w0 acts = Some s ->
  (count is_after (trace s) <= 1)%nat /\
  world s = hook_world cfg (trace s) w0 /\
  (forall r, In (EvRunReturn r) (trace s) -> run_failed r = true ->
     count is_after (trace s) = 0%nat /\
     forall v, result s = Some v -> v = r) /\
  (forall r v, In (EvRunReturn r) (trace s) -> run_failed r = false ->
     result s = Some v ->
     filter is_after (trace s) = [EvAfter v] /\
     precedes (EvAfter v) (EvReturn v) (trace s) /\
     exists f g,
       beforeShutdown cfg = Some f /\ afterShutdown cfg = Some g /\
       world s = g v (f (shutdownTimeout cfg) w0)) /\
  (forall v, result s = Some v -> exists r, In (EvRunReturn r) (trace s)) /\
  (forall v, In (EvAfter v) (trace s) ->
     In (EvShutdownReturn None) (trace s) -> v = None).
Proof.
  intros Hstart.
  pose proof (invariant_start cfg t0 w0 acts s Hstart) as Hinv.
  pose proof (bookkeeping_start cfg t0 w0 acts s Hstart) as Hbk.
  pose proof (inv_order cfg t0 s Hinv) as Hord.
  split; [|split; [exact (bk_world cfg w0 s Hbk) | split; [|split; [|split]]]].
  - rewrite (count_main is_after) by apply after_is_main.
    destruct (main_events cfg t0 s Hinv)
      as [He | [(r1 & He) | [(r1 & _ & He & _) | [(r1 & v1 & _ & He & _)
                                                 | (r1 & v1 & _ & He & _)]]]];
      rewrite He; unfold count; simpl; lia.
  - intros r Hin Hr.
    pose proof (inv_main cfg t0 s Hinv) as Hm. unfold main_inv in Hm.
    rewrite (count_main is_after) by apply after_is_main.
    destruct (run_return_failed cfg t0 s r Hinv Hin Hr) as [Hpc | Hpc];
      rewrite Hpc in Hm; unfold result; rewrite Hpc.
    + rewrite Hm. split; [reflexivity | discriminate].
    + split; [|congruence].
      destruct Hm as [(_ & Hm) | (r0 & Hr0 & Hm & _)]; [now rewrite Hm|].
      apply (filter_all _ _ _ _ Hm) in Hin; [|reflexivity].
      destruct Hin as [Heq|[Heq|[Heq|[]]]]; try discriminate. congruence.
  - intros r v Hin Hr Hres.
    destruct (world_returned acts s r v Hstart Hin Hr Hres) as (Ha & Hwd).
    split; [exact Ha|]. split; [|exact Hwd].
    destruct (run_return_soft cfg t0 s r Hinv Hin Hr v Hres) as (Hm & _).
    now apply (filter_precedes is_main_ev _ _ _ [EvRunReturn r] [] []).
  - intros v Hres.
    destruct (returned_how cfg t0 s v Hinv Hres)
      as [(_ & Hm) | (r & _ & Hm & _)].
    + exists v. eapply filter_mem; [exact Hm | now left].
    + exists r. eapply filter_mem; [exact Hm | now left].
  - intros v Hv Hnil.
    apply (ord_after _ _ Hord), precedes_In in Hv as (Hsr & _).
    symmetry. now apply (shutdown_result_unique cfg t0 s _ _ Hinv).
Qed.

(** C5. The before-hook runs at most once in any run, only after the
    context was cancelled and only with [cfg.shutdownTimeout]; whenever
    [srv.Shutdown] has been called the hook has run exactly once, before
    that call.  The call is a call: at line 84 the watcher's step
    applies the hook to the timeout, the world is what the recorded
    hook calls make of it, and until the after-hook runs it is the
    initial world before the call and the before-hook applied to the
    timeout after it.  And the call does happen: from any state in
    which the context is cancelled, the watcher goroutine alone reaches
    the Shutdown call in at most four steps, with the hook called
    exactly once on the way. *)
Theorem before_hook_once
    (acts : list action) (s : state W) :
  start cfg t0 w0 acts = Some s ->
  (count is_before (trace s) <= 1)%nat /\
  (forall d, In (EvBefore d) (trace s) ->
     d = shutdownTimeout cfg /\ precedes EvCancel (EvBefore d) (trace s)) /\
  (forall c, In (EvShutdownCall c) (trace s) ->
     count is_before (trace s) = 1%nat /\
     precedes (EvBefore (shutdownTimeout cfg)) (EvShutdownCall c) (trace s)) /\
  (forall f, cancelled s = true -> beforeShutdown cfg = Some f ->
     exists k s',
       (k <= 4)%nat /\
       run cfg (repeat AWatcher k) s = Some s' /\
       count is_before (trace s') = 1%nat /\
       (exists c, In (EvShutdownCall c) (trace s')) /\
       (count is_before (trace s) = 0%nat ->
        world s' = f (shutdownTimeout cfg) (world s))) /\
  (forall c f, wpc s = WBefore c -> beforeShutdown cfg = Some f ->
     step cfg AWatcher s =
     Some (emit (EvBefore (shutdownTimeout cfg))
             (set_world (f (shutdownTimeout cfg) (world s))
                (set_wpc (WCall c) s)))) /\
  world s = hook_world cfg (trace s) w0 /\
  (forall f, beforeShutdown cfg = Some f ->
     count is_after (trace s) = 0%nat ->
     (count is_before (trace s) = 0%nat -> world s = w0) /\
     (count is_before (trace s) = 1%nat ->
      world s = f (shutdownTimeout cfg) w0)).
Proof.
  intros Hstart.
  pose proof (invariant_start cfg t0 w0 acts s Hstart) as Hinv.
  pose proof (bookkeeping_start cfg t0 w0 acts s Hstart) as Hbk.
  pose proof (inv_order cfg t0 s Hinv) as Hord.
  pose proof (watcher_events cfg t0 s Hinv) as Hev. simpl in Hev.
  split; [|split; [|split; [|split; [|split; [|split]]]]].
  - rewrite (count_watcher is_before) by apply before_is_watcher.
    destruct Hev as [He | [He | [(c & He) | (c & v & He)]]];
      rewrite He; unfold count; simpl; lia.
  - intros d Hd. split.
    + destruct Hev as [He | [He | [(c & He) | (c & v & He)]]];
        apply (filter_all _ _ _ _ He) in Hd; try reflexivity;
        simpl in Hd; intuition congruence.
    + now apply (ord_cancel _ _ Hord).
  - intros c Hc. split; [|now apply (ord_before _ _ Hord)].
    rewrite (count_watcher is_before) by apply before_is_watcher.
    destruct Hev as [He | [He | [(c1 & He) | (c1 & v & He)]]];
      rewrite He; try reflexivity;
      apply (filter_all _ _ _ _ He) in Hc; try reflexivity;
      simpl in Hc; intuition discriminate.
  - intros f Hc Hf. now apply (watcher_reaches_shutdown cfg t0 s f).
  - intros c f Hpc Hf.
    pose proof (inv_watcher cfg t0 s Hinv) as Hw. unfold watcher_inv in Hw.
    rewrite Hpc in Hw. destruct Hw as (_ & _ & Hw).
    unfold step. rewrite (early_not_crashed cfg t0 s Hinv).
    + unfold step_watcher. now rewrite Hpc, Hf.
    + apply (no_shutdown_return _ []); auto.
    + congruence.
  - exact (bk_world cfg w0 s Hbk).
  - intros f Hf Ha. now apply (world_between acts s f).
Qed.

Lemma shutdown_ctx_leb (now : Z) :
  shutdown_ctx cfg now =
  if shutdownTimeout cfg <=? 0 then Background
  else WithDeadline (now + shutdownTimeout cfg).
Proof.
  unfold shutdown_ctx, WithTimeout.
  destruct (0 <? shutdownTimeout cfg) eqn:Hlt,
           (shutdownTimeout cfg <=? 0) eqn:Hle; try reflexivity.
  - apply Z.ltb_lt in Hlt. apply Z.leb_le in Hle. lia.
  - apply Z.ltb_ge in Hlt. apply Z.leb_gt in Hle. lia.
Qed.

(** C6, as the code has it.  The context passed to [srv.Shutdown] is
    [context.Background()] when [cfg.shutdownTimeout] is zero or
    negative, and carries the deadline now + [cfg.shutdownTimeout] when
    it is positive, now being the clock reading at which the watcher
    executes line 80: every Shutdown call of a run goes back to one
    step of the run, taken by the watcher at lines 77-82 after the
    cancellation, and its context is the one computed from the clock
    as it read at that step, however much time passes before line 85. *)
Theorem shutdown_deadline
    (acts : list action) (s : state W) :
  start cfg t0 w0 acts = Some s ->
  (forall c, In (EvShutdownCall c) (trace s) ->
     (shutdownTimeout cfg <= 0 -> c = Background) /\
     (0 < shutdownTimeout cfg ->
      exists t, t0 <= t <= now s /\
                c = WithDeadline (t + shutdownTimeout cfg))) /\
  (wpc s = WTimeout ->
   step cfg AWatcher s =
   Some (set_wpc
           (WBefore (if shutdownTimeout cfg <=? 0 then Background
                     else WithDeadline (now s + shutdownTimeout cfg))) s)) /\
  (forall c, In (EvShutdownCall c) (trace s) ->
     exists acts1 acts2 s1,
       acts = acts1 ++ AWatcher :: acts2 /\
       start cfg t0 w0 acts1 = Some s1 /\
       wpc s1 = WTimeout /\ cancelled s1 = true /\
       c = if shutdownTimeout cfg <=? 0 then Background
           else WithDeadline (now s1 + shutdownTimeout cfg)).
Proof.
  intros Hstart.
  pose proof (invariant_start cfg t0 w0 acts s Hstart) as Hinv.
  split; [|split].
  - intros c Hc. destruct (inv_ctx cfg t0 s Hinv c Hc) as (t & Ht & Hct).
    destruct (shutdown_ctx_cases cfg c t Hct) as [(Hd & ->) | (Hd & ->)].
    + split; [reflexivity | lia].
    + split; [lia|]. intros _. exists t. auto.
  - intros Hpc.
    pose proof (inv_watcher cfg t0 s Hinv) as Hw. unfold watcher_inv in Hw.
    rewrite Hpc in Hw. destruct Hw as (_ & Hw).
    unfold step. rewrite (early_not_crashed cfg t0 s Hinv).
    + unfold step_watcher. now rewrite Hpc, shutdown_ctx_leb.
    + apply (no_shutdown_return _ []); auto.
    + congruence.
  - intros c Hc.
    destruct (ctx_reading cfg t0 w0 acts s c Hstart)
      as (acts1 & acts2 & s1 & H1 & H2 & H3 & H4 & H5).
    + now left.
    + exists acts1, acts2, s1. rewrite <- shutdown_ctx_leb. auto.
Qed.

End Branch.

(** ** The scenarios, run *)

Example bind_failure_run :
  start logging 0 [] bind_failure =
  Some (mkState (MDone (Some bind_error)) WWait false 0 []
          [EvRunReturn (Some bind_error); EvReturn (Some bind_error)]).
Proof. reflexivity. Qed.

Example clean_shutdown_run :
  start logging 0 [] clean_shutdown =
  Some (mkState (MDone None) WExit true 0 ["before"; "after"]%string
          [EvCancel; EvBefore Second; EvShutdownCall (WithDeadline Second);
           EvRunReturn (Some ErrServerClosed); EvShutdownReturn None;
           EvAfter None; EvReturn None]).
Proof. reflexivity. Qed.

Example slow_shutdown_run :
  start logging 0 [] slow_shutdown =
  Some (mkState MRecv (WSend (Some DeadlineExceeded)) true 1000000005
          ["before"%string]
          [EvCancel; EvBefore Second;
           EvShutdownCall (WithDeadline (5 + Second));
           EvRunReturn (Some ErrServerClosed);
           EvShutdownReturn (Some DeadlineExceeded)]).
Proof. reflexivity. Qed.

Example slow_shutdown_finished :
  start logging 0 [] (slow_shutdown ++ finish) =
  Some (mkState (MDone (Some DeadlineExceeded)) WExit true 1000000005
          ["before"; "after"]%string
          [EvCancel; EvBefore Second;
           EvShutdownCall (WithDeadline (5 + Second));
           EvRunReturn (Some ErrServerClosed);
           EvShutdownReturn (Some DeadlineExceeded);
           EvAfter (Some DeadlineExceeded);
           EvReturn (Some DeadlineExceeded)]).
Proof. reflexivity. Qed.

(** After the early return the watcher is still there: a later
    cancellation makes it shut the server down in the background, and
    its send on [errc] then blocks for good. *)
Example shutdown_after_run_failure :
  start logging 0 [] (bind_failure ++ cancel_only ++ [AShutdownReturn None]) =
  Some (mkState (MDone (Some bind_error)) (WSend None) true 0
          ["before"%string]
          [EvRunReturn (Some bind_error); EvReturn (Some bind_error);
           EvCancel; EvBefore Second; EvShutdownCall (WithDeadline Second);
           EvShutdownReturn None]) /\
  (forall a s,
     start logging 0 []
       (bind_failure ++ cancel_only ++ [AShutdownReturn None; a]) = Some s ->
     wpc s = WSend None /\ result s = Some (Some bind_error)).
Proof.
  split; [reflexivity|].
  intros a s. destruct a; vm_compute; intros H;
    try discriminate H; injection H as <-; split; reflexivity.
Qed.

Example late_call_run :
  start logging 0 [] late_call =
  Some (mkState MRun (WShutdown (WithDeadline (5 + Second))) true 23
          ["before"%string]
          [EvCancel; EvBefore Second;
           EvShutdownCall (WithDeadline (5 + Second))]).
Proof. reflexivity. Qed.

Example wrapped_closed_is_closed :
  errors_Is (ErrWrap "serve" ErrServerClosed) ErrServerClosed = true /\
  errors_Is (ErrJoin [bind_error; ErrWrap "serve" ErrServerClosed])
    ErrServerClosed = true /\
  errors_Is (ErrCustom "closing" [ErrServerClosed]) ErrServerClosed = true /\
  errors_Is (ErrCustom "closing" [DeadlineExceeded]) ErrServerClosed = false /\
  errors_Is (ErrJoin [bind_error; DeadlineExceeded]) ErrServerClosed = false /\
  errors_Is bind_error ErrServerClosed = false.
Proof. repeat split; reflexivity. Qed.

(** The bind failure is returned as it is and no hook runs. *)
Lemma run_failure_is_returned_witness :
  exists s,
    start logging 0 [] bind_failure = Some s /\
    ~ In ACancel bind_failure /\
    In (EvRunReturn (Some bind_error)) (trace s) /\
    errors_Is bind_error ErrServerClosed = false /\
    count is_after (trace s) = 0%nat /\
    (result s = Some (Some bind_error) \/
     result s = None /\
     exists s', step logging AMain s = Some s' /\
                result s' = Some (Some bind_error) /\
                count is_after (trace s') = 0%nat).
Proof.
  eexists. split; [vm_compute; reflexivity|].
  assert (Hno : ~ In ACancel bind_failure).
  { simpl. intros [H|[H|[]]]; discriminate. }
  split; [exact Hno|].
  split; [simpl; auto|].
  split; [reflexivity|].
  apply (run_failure_is_returned logging 0 [] bind_failure _ bind_error).
  - reflexivity.
  - exact Hno.
  - simpl. auto.
  - reflexivity.
Defined.

(** The timed-out shutdown, stopped where the result is on [errc]: the
    after-hook gets [DeadlineExceeded] and [start] returns it. *)
Lemma after_hook_on_shutdown_path_witness :
  exists s g,
    start logging 0 [] slow_shutdown = Some s /\
    In (EvRunReturn (Some ErrServerClosed)) (trace s) /\
    mpc s = MRecv /\ wpc s = WSend (Some DeadlineExceeded) /\
    afterShutdown logging = Some g /\
    exists s',
      run logging finish s = Some s' /\
      result s' = Some (Some DeadlineExceeded) /\
      trace s' =
        trace s ++ [EvAfter (Some DeadlineExceeded);
                    EvReturn (Some DeadlineExceeded)] /\
      world s' = g (Some DeadlineExceeded) (world s).
Proof.
  eexists. eexists. split; [vm_compute; reflexivity|].
  split; [simpl; auto 8|].
  split; [reflexivity|]. split; [reflexivity|]. split; [reflexivity|].
  apply (after_hook_on_shutdown_path logging 0 [] slow_shutdown _
           (Some ErrServerClosed)).
  - reflexivity.
  - simpl. auto 8.
  - right. exists ErrServerClosed. split; reflexivity.
  - reflexivity.
  - reflexivity.
  - reflexivity.
Defined.

(** C4 as stated fails: the bind failure ends the run, [start] has
    returned, and [cfg.afterShutdown] was not called at all. *)
Lemma after_hook_not_called_on_run_failure :
  (exists s,
     start logging 0 [] bind_failure = Some s /\
     result s = Some (Some bind_error) /\
     count is_after (trace s) = 0%nat /\
     world s = []) /\
  ~ (forall (cfg : config (list string)) t0 w0 acts s v,
       start cfg t0 w0 acts = Some s -> result s = Some v ->
       count is_after (trace s) = 1%nat).
Proof.
  split.
  - eexists. repeat split.
  - intros H.
    specialize (H logging 0 [] bind_failure _ _ eq_refl eq_refl).
    discriminate H.
Qed.

(** C6 as stated fails: the timeout is not zero, yet Shutdown is called
    with the background context and not with a deadline. *)
Lemma negative_timeout_has_no_deadline :
  (exists s,
     start negative_timeout 0 [] cancel_only = Some s /\
     shutdownTimeout negative_timeout <> 0 /\
     trace s = [EvCancel; EvBefore (-1); EvShutdownCall Background]) /\
  ~ (forall (cfg : config (list string)) t0 w0 acts s c,
       start cfg t0 w0 acts = Some s ->
       In (EvShutdownCall c) (trace s) ->
       (shutdownTimeout cfg = 0 -> c = Background) /\
       (shutdownTimeout cfg <> 0 ->
        exists t, c = WithDeadline (t + shutdownTimeout cfg))).
Proof.
  assert (Hrun : exists s,
             start negative_timeout 0 [] cancel_only = Some s /\
             shutdownTimeout negative_timeout <> 0 /\
             trace s = [EvCancel; EvBefore (-1); EvShutdownCall Background]).
  { eexists. split; [vm_compute; reflexivity|].
    split; [discriminate | reflexivity]. }
  split; [exact Hrun|].
  intros H. destruct Hrun as (s & Hs & Hd & Htr).
  assert (Hin : In (EvShutdownCall Background) (trace s)).
  { rewrite Htr. simpl. auto. }
  destruct (H negative_timeout 0 [] cancel_only s Background Hs Hin)
    as (_ & Hdl).
  destruct (Hdl Hd) as (t & Ht). discriminate Ht.
Qed.

Lemma shutdown_at_most_once_witness :
  exists s,
    start logging 0 [] clean_shutdown = Some s /\
    (count is_shutdown_call (trace s) <= 1)%nat /\
    (cancelled s = false -> count is_shutdown_call (trace s) = 0%nat) /\
    (forall c, In (EvShutdownCall c) (trace s) ->
       precedes EvCancel (EvShutdownCall c) (trace s)) /\
    (forall v, In (EvShutdownReturn v) (trace s) ->
       step logging AWatcher s = None).
Proof.
  eexists. split; [vm_compute; reflexivity|].
  apply (shutdown_at_most_once logging 0 [] clean_shutdown).
  vm_compute. reflexivity.
Defined.

Lemma negative_timeout_is_unbounded_witness :
  exists s,
    start negative_timeout 0 [] cancel_only = Some s /\
    In (EvShutdownCall Background) (trace s) /\
    (shutdownTimeout negative_timeout < 0 -> Background = Background) /\
    ((exists deadline, Background = WithDeadline deadline) <->
     0 < shutdownTimeout negative_timeout).
Proof.
  eexists. split; [vm_compute; reflexivity|].
  lazymatch goal with
  | |- In _ (trace ?s) /\ _ =>
      assert (Hs : start negative_timeout 0 [] cancel_only = Some s)
        by (vm_compute; reflexivity)
  end.
  split; [simpl; auto|].
  apply (negative_timeout_is_unbounded negative_timeout 0 []
           cancel_only _ Background Hs).
  simpl. auto.
Defined.

(** Under the default config the clean shutdown runs through without a
    panic and the no-op hooks leave the world empty. *)
Lemma newConfig_defaults_witness :
  exists s,
    start (@newConfig (list string) []) 0 [] clean_shutdown = Some s /\
    crashed s = false /\ world s = [] /\ result s = Some None.
Proof.
  eexists. split; [vm_compute; reflexivity|].
  lazymatch goal with
  | |- context [crashed ?s] =>
      assert (Hs : start (@newConfig (list string) []) 0 [] clean_shutdown
                   = Some s)
        by (vm_compute; reflexivity)
  end.
  destruct (@newConfig_defaults (list string)) as (_ & _ & _ & _ & Hrun).
  destruct (Hrun 0 [] clean_shutdown _ Hs) as (Hc & Hw).
  split; [exact Hc|]. split; [exact Hw|]. reflexivity.
Defined.

(** [BeforeShutdown(nil)]: cancelling makes the watcher panic.
    [AfterShutdown(nil)]: the caller panics once it has the result. *)
Lemma nil_hook_panics_witness :
  (exists s,
     start nil_before 0 [] [ACancel] = Some s /\
     exists k s',
       (k <= 3)%nat /\
       run nil_before (repeat AWatcher k) s = Some s' /\
       wpc s' = WPanic /\ crashed s' = true /\
       count is_shutdown_call (trace s') = 0%nat /\
       forall a, step nil_before a s' = None) /\
  (exists s,
     start nil_after 0 [] until_handoff = Some s /\
     exists s',
       run nil_after [AHandoff; AMain] s = Some s' /\
       mpc s' = MPanic /\ crashed s' = true /\ result s' = None /\
       forall a, step nil_after a s' = None).
Proof.
  destruct (@nil_hook_panics (list string)) as (_ & _ & Hb & Ha).
  split.
  - eexists. split; [vm_compute; reflexivity|].
    apply (Hb nil_before 0 [] [ACancel]); vm_compute; reflexivity.
  - eexists. split; [vm_compute; reflexivity|].
    apply (Ha nil_after 0 [] until_handoff _ None); vm_compute; reflexivity.
Defined.

(** The later [WithShutdownTimeout(0)] wins over the earlier second:
    [Serve] shuts down without a deadline. *)
Lemma entry_point_deadline_witness :
  exists s,
    Serve (map to_option timeout_twice) 0 [] cancel_only = Some s /\
    In (EvShutdownCall Background) (trace s) /\
    (last (timeouts timeout_twice) (30 * Second) <= 0 ->
     Background = Background) /\
    (0 < last (timeouts timeout_twice) (30 * Second) ->
     exists t, 0 <= t <= now s /\
               Background =
               WithDeadline (t + last (timeouts timeout_twice) (30 * Second))).
Proof.
  eexists. split; [vm_compute; reflexivity|].
  lazymatch goal with
  | |- In _ (trace ?s) /\ _ =>
      assert (Hs : Serve (map to_option timeout_twice) 0 [] cancel_only
                   = Some s)
        by (vm_compute; reflexivity)
  end.
  assert (Hin : In (EvShutdownCall Background)
                  [EvCancel; EvBefore 0; EvShutdownCall Background]).
  { simpl. auto. }
  split; [exact Hin|].
  apply (entry_point_deadline timeout_twice 0 [] cancel_only _ Background).
  - right. right. left. exact Hs.
  - exact Hin.
Defined.

Lemma returns_after_runFunc_witness :
  exists s,
    start logging 0 [] clean_shutdown = Some s /\
    result s = Some None /\
    count is_return (trace s) = 1%nat /\
    exists r, precedes (EvRunReturn r) (EvReturn None) (trace s) /\
              (run_failed r = true -> None = r).
Proof.
  eexists. split; [vm_compute; reflexivity|].
  split; [reflexivity|].
  apply (returns_after_runFunc logging 0 [] clean_shutdown).
  - vm_compute. reflexivity.
  - reflexivity.
Defined.

(** The nil return of the clean shutdown: cancelled, and Shutdown
    returned nil. *)
Lemma result_origin_witness :
  exists s,
    start logging 0 [] clean_shutdown = Some s /\
    result s = Some None /\
    cancelled s = true /\ In (EvShutdownReturn None) (trace s).
Proof.
  eexists. split; [vm_compute; reflexivity|].
  split; [reflexivity|].
  refine (proj2 (result_origin logging 0 [] clean_shutdown _ None _ _) _).
  - vm_compute. reflexivity.
  - reflexivity.
  - reflexivity.
Defined.

(** [runFunc] returns nil and nobody cancels: the caller sits at the
    receive. *)
Lemma blocked_until_cancelled_witness :
  exists s,
    start logging 0 [] [ARunReturn None; AMain] = Some s /\
    cancelled s = false /\
    In (EvRunReturn None) (trace s) /\
    run_failed None = false /\
    result s = None /\
    (mpc s = MCheck None \/ mpc s = MRecv) /\
    (mpc s = MRecv ->
     forall a s', step logging a s = Some s' ->
                  a = ACancel \/ exists dt, a = ATick dt).
Proof.
  eexists. split; [vm_compute; reflexivity|].
  split; [reflexivity|]. split; [simpl; auto|]. split; [reflexivity|].
  apply (blocked_until_cancelled logging 0 [] [ARunReturn None; AMain]).
  - vm_compute. reflexivity.
  - reflexivity.
  - simpl. auto.
  - reflexivity.
Defined.

(** After the bind failure, a later cancellation leaves the watcher
    stuck on its send. *)
Lemma watcher_never_exits_witness :
  exists s,
    start logging 0 []
      (bind_failure ++ cancel_only ++ [AShutdownReturn None]) = Some s /\
    In (EvRunReturn (Some bind_error)) (trace s) /\
    run_failed (Some bind_error) = true /\
    wpc s <> WExit /\
    step logging AHandoff s = None /\
    count is_after (trace s) = 0%nat.
Proof.
  eexists. split; [vm_compute; reflexivity|].
  split; [simpl; auto|]. split; [reflexivity|].
  apply (watcher_never_exits logging 0 []
           (bind_failure ++ cancel_only ++ [AShutdownReturn None]) _
           (Some bind_error)).
  - vm_compute. reflexivity.
  - simpl. auto.
  - reflexivity.
Defined.

Lemma no_hook_before_cancel_witness :
  exists s,
    start logging 0 [] bind_failure = Some s /\
    cancelled s = false /\
    count is_before (trace s) = 0%nat /\
    count is_after (trace s) = 0%nat /\
    world s = [].
Proof.
  eexists. split; [vm_compute; reflexivity|].
  split; [reflexivity|].
  apply (no_hook_before_cancel logging 0 [] bind_failure).
  - vm_compute. reflexivity.
  - reflexivity.
Defined.

(** The timed-out shutdown, run to the end: before, then after. *)
Lemma hooks_in_order_witness :
  exists s,
    start logging 0 [] (slow_shutdown ++ finish) = Some s /\
    In (EvRunReturn (Some ErrServerClosed)) (trace s) /\
    run_failed (Some ErrServerClosed) = false /\
    result s = Some (Some DeadlineExceeded) /\
    precedes (EvBefore (shutdownTimeout logging))
             (EvAfter (Some DeadlineExceeded)) (trace s) /\
    exists f g,
      beforeShutdown logging = Some f /\ afterShutdown logging = Some g /\
      world s = g (Some DeadlineExceeded) (f (shutdownTimeout logging) []).
Proof.
  eexists. split; [vm_compute; reflexivity|].
  split; [simpl; auto 8|]. split; [reflexivity|]. split; [reflexivity|].
  apply (hooks_in_order logging 0 [] (slow_shutdown ++ finish) _
           (Some ErrServerClosed) (Some DeadlineExceeded)).
  - vm_compute. reflexivity.
  - simpl. auto 8.
  - reflexivity.
  - reflexivity.
Defined.

(** Cancelled, [runFunc] back with nil, nothing else done yet: the
    driven schedule ends with the timeout error returned. *)
Lemma start_can_complete_witness :
  exists s f g,
    start logging 0 [] [ACancel; ARunReturn None] = Some s /\
    cancelled s = true /\
    In (EvRunReturn None) (trace s) /\
    run_failed None = false /\
    beforeShutdown logging = Some f /\
    afterShutdown logging = Some g /\
    exists s' v,
      run logging (drive s (Some DeadlineExceeded)) s = Some s' /\
      result s' = Some v /\
      (v = Some DeadlineExceeded \/ In (EvShutdownReturn v) (trace s)).
Proof.
  eexists. eexists. eexists. split; [vm_compute; reflexivity|].
  split; [reflexivity|]. split; [simpl; auto|]. split; [reflexivity|].
  split; [reflexivity|]. split; [reflexivity|].
  eapply (start_can_complete logging 0 [] [ACancel; ARunReturn None] _
            None (Some DeadlineExceeded)).
  - vm_compute. reflexivity.
  - reflexivity.
  - simpl. auto.
  - reflexivity.
  - reflexivity.
  - reflexivity.
Defined.

(** [runFunc] has come back with the closed sentinel and nobody has
    cancelled yet: the caller goes on to wait, and cancelling and
    driving ends with the timeout error Shutdown returns. *)
Lemma closed_sentinel_is_suppressed_witness :
  exists s f g,
    start logging 0 [] [ARunReturn (Some ErrServerClosed)] = Some s /\
    In (EvRunReturn (Some ErrServerClosed)) (trace s) /\
    errors_Is ErrServerClosed ErrServerClosed = true /\
    mpc s = MCheck (Some ErrServerClosed) /\ crashed s = false /\
    beforeShutdown logging = Some f /\ afterShutdown logging = Some g /\
    step logging AMain s = Some (set_mpc MRecv s) /\
    exists s' v,
      run logging (ACancel :: drive s (Some DeadlineExceeded)) s = Some s' /\
      result s' = Some v /\
      (v = Some DeadlineExceeded \/ In (EvShutdownReturn v) (trace s)) /\
      In (EvShutdownReturn v) (trace s').
Proof.
  eexists. eexists. eexists. split; [vm_compute; reflexivity|].
  split; [simpl; auto|]. split; [reflexivity|].
  split; [reflexivity|]. split; [reflexivity|].
  split; [reflexivity|]. split; [reflexivity|].
  lazymatch goal with
  | |- step _ _ ?s = _ /\ _ =>
      assert (Hs : start logging 0 [] [ARunReturn (Some ErrServerClosed)]
                   = Some s)
        by (vm_compute; reflexivity);
      destruct (closed_sentinel_is_suppressed logging 0 []
                  [ARunReturn (Some ErrServerClosed)] s
                  (Some ErrServerClosed) Hs)
        as (_ & _ & Hwait & _ & Hdrive)
  end.
  - simpl. auto.
  - right. exists ErrServerClosed. split; reflexivity.
  - split.
    + apply Hwait; reflexivity.
    + exact (Hdrive _ _ (Some DeadlineExceeded) eq_refl eq_refl).
Defined.

(** The clean shutdown: one after-hook call, with nil, and the world
    is the after-hook on top of the before-hook. *)
Lemma after_hook_at_most_once_witness :
  exists s,
    start logging 0 [] clean_shutdown = Some s /\
    In (EvRunReturn (Some ErrServerClosed)) (trace s) /\
    run_failed (Some ErrServerClosed) = false /\
    result s = Some None /\
    filter is_after (trace s) = [EvAfter None] /\
    precedes (EvAfter None) (EvReturn None) (trace s) /\
    exists f g,
      beforeShutdown logging = Some f /\ afterShutdown logging = Some g /\
      world s = g None (f (shutdownTimeout logging) []).
Proof.
  eexists. split; [vm_compute; reflexivity|].
  assert (Hin : In (EvRunReturn (Some ErrServerClosed))
                  [EvCancel; EvBefore Second;
                   EvShutdownCall (WithDeadline Second);
                   EvRunReturn (Some ErrServerClosed); EvShutdownReturn None;
                   EvAfter None; EvReturn None]).
  { simpl. auto 8. }
  split; [exact Hin|]. split; [reflexivity|]. split; [reflexivity|].
  lazymatch goal with
  | |- filter _ (trace ?s) = _ /\ _ =>
      assert (Hs : start logging 0 [] clean_shutdown = Some s)
        by (vm_compute; reflexivity);
      destruct (after_hook_at_most_once logging 0 [] clean_shutdown s Hs)
        as (_ & _ & _ & Hsoft & _)
  end.
  exact (Hsoft (Some ErrServerClosed) None Hin eq_refl eq_refl).
Defined.

(** From the moment of cancellation the watcher gets to the Shutdown
    call with the before-hook called once, on the timeout. *)
Lemma before_hook_once_witness :
  exists s f,
    start logging 0 [] [ACancel] = Some s /\
    cancelled s = true /\
    beforeShutdown logging = Some f /\
    exists k s',
      (k <= 4)%nat /\
      run logging (repeat AWatcher k) s = Some s' /\
      count is_before (trace s') = 1%nat /\
      (exists c, In (EvShutdownCall c) (trace s')) /\
      (count is_before (trace s) = 0%nat ->
       world s' = f (shutdownTimeout logging) (world s)).
Proof.
  eexists. eexists. split; [vm_compute; reflexivity|].
  split; [reflexivity|]. split; [reflexivity|].
  lazymatch goal with
  | |- context [run _ _ ?s] =>
      assert (Hs : start logging 0 [] [ACancel] = Some s)
        by (vm_compute; reflexivity)
  end.
  destruct (before_hook_once logging 0 [] [ACancel] _ Hs)
    as (_ & _ & _ & Hrun & _).
  exact (Hrun _ eq_refl eq_refl).
Defined.

(** The watcher reads the clock at 5 ns and calls Shutdown at 23 ns:
    the deadline is 5 ns plus one second. *)
Lemma shutdown_deadline_witness :
  exists s,
    start logging 0 [] late_call = Some s /\
    now s = 23 /\
    In (EvShutdownCall (WithDeadline (5 + Second))) (trace s) /\
    exists acts1 acts2 s1,
      late_call = acts1 ++ AWatcher :: acts2 /\
      start logging 0 [] acts1 = Some s1 /\
      wpc s1 = WTimeout /\ cancelled s1 = true /\
      WithDeadline (5 + Second) =
      if shutdownTimeout logging <=? 0 then Background
      else WithDeadline (now s1 + shutdownTimeout logging).
Proof.
  eexists. split; [vm_compute; reflexivity|].
  split; [reflexivity|].
  assert (Hin : In (EvShutdownCall (WithDeadline (5 + Second)))
                  [EvCancel; EvBefore Second;
                   EvShutdownCall (WithDeadline (5 + Second))]).
  { simpl. auto. }
  split; [exact Hin|].
  lazymatch goal with
  | Hin : In _ ?tr |- _ =>
      assert (Hs : start logging 0 [] late_call =
                   Some (mkState MRun (WShutdown (WithDeadline (5 + Second)))
                           true 23 ["before"%string] tr))
        by (vm_compute; reflexivity)
  end.
  destruct (shutdown_deadline logging 0 [] late_call _ Hs)
    as (_ & _ & Hread).
  exact (Hread _ Hin).
Defined.
